(** * DhristiAI: crowd-counting pipeline

    Shallow embedding of the per-frame logic of [People_Counter.py]
    ([count_people_live_camera]) and [AI_RTMP_Server/main.py]
    ([get_crowd_risk], [get_crowd_status], [process_frame_realtime]). *)

From Stdlib Require Import List ZArith QArith String Ascii Bool Lia Lqa.
Import ListNotations.

(* ------------------------------------------------------------------ *)
(** ** Track Manager ([count_people_live_camera], lines 110-143) *)

Module Tracker.

(** A centroid [(cx, cy)]; [cx = (x1 + x2) // 2] is an integer. *)
Definition point := (Z * Z)%type.

(** The value stored in [tracked]: [(centroid, counted)]. *)
Definition track := (point * bool)%type.

(** A Python dict [id -> (centroid, counted)], kept in insertion order. *)
Definition tracks := list (nat * track).

Fixpoint dict_get (k : nat) (d : tracks) : option track :=
  match d with
  | [] => None
  | (k', v) :: d' => if Nat.eqb k k' then Some v else dict_get k d'
  end.

(** [d[k] = v]: an existing key keeps its position, a new key is appended. *)
Fixpoint dict_set (k : nat) (v : track) (d : tracks) : tracks :=
  match d with
  | [] => [(k, v)]
  | (k', v') :: d' =>
      if Nat.eqb k k' then (k, v) :: d' else (k', v') :: dict_set k v d'
  end.

(** Squared Euclidean distance of two integer centroids. *)
Definition dist2 (c old_c : point) : Z :=
  let dx := (fst c - fst old_c)%Z in
  let dy := (snd c - snd old_c)%Z in
  (dx * dx + dy * dy)%Z.

(** [np.linalg.norm(np.array(c) - np.array(old_c)) < 50]: for integer
    coordinates the correctly rounded square root is below 50 exactly when
    the squared distance is below 2500. *)
Definition near (c old_c : point) : bool := (dist2 c old_c <? 2500)%Z.

(** The inner loop [for id, (old_c, counted) in tracked.items(): ... break]. *)
Fixpoint first_match (tracked : tracks) (c : point) : option (nat * bool) :=
  match tracked with
  | [] => None
  | (id, (old_c, counted)) :: rest =>
      if near c old_c then Some (id, counted) else first_match rest c
  end.

(** One iteration of [for c in centroids:], on [(new_tracked, next_id)]. *)
Definition assign_step (tracked : tracks) (acc : tracks * nat) (c : point)
  : tracks * nat :=
  let '(new_tracked, next_id) := acc in
  match first_match tracked c with
  | Some (id, counted) => (dict_set id (c, counted) new_tracked, next_id)
  | None => (dict_set next_id (c, false) new_tracked, S next_id)
  end.

(** [new_tracked = {}; for c in centroids: ...]; returns the new dict and
    the new [next_id]. *)
Definition track_frame (tracked : tracks) (centroids : list point)
  (next_id : nat) : tracks * nat :=
  fold_left (assign_step tracked) centroids ([], next_id).

(** The association rule as the specification words it: a track already
    claimed by an earlier detection of the same frame is skipped. *)
Fixpoint first_unclaimed (tracked : tracks) (claimed : list nat) (c : point)
  : option (nat * bool) :=
  match tracked with
  | [] => None
  | (id, (old_c, counted)) :: rest =>
      if near c old_c && negb (existsb (Nat.eqb id) claimed)
      then Some (id, counted) else first_unclaimed rest claimed c
  end.

Definition spec_assign_step (tracked : tracks) (acc : tracks * nat * list nat)
  (c : point) : tracks * nat * list nat :=
  let '(new_tracked, next_id, claimed) := acc in
  match first_unclaimed tracked claimed c with
  | Some (id, counted) =>
      (dict_set id (c, counted) new_tracked, next_id, id :: claimed)
  | None => (dict_set next_id (c, false) new_tracked, S next_id, claimed)
  end.

Definition spec_track_frame (tracked : tracks) (centroids : list point)
  (next_id : nat) : tracks * nat :=
  let '(d, n, _) := fold_left (spec_assign_step tracked) centroids ([], next_id, []) in
  (d, n).

(** Detections whose first match is the track [id]. *)
Definition claims (tracked : tracks) (id : nat) (c : point) : bool :=
  match first_match tracked c with
  | Some (i, _) => Nat.eqb i id
  | None => false
  end.

(** Detections that match no track. *)
Definition unmatched (tracked : tracks) (c : point) : bool :=
  match first_match tracked c with
  | Some _ => false
  | None => true
  end.

Fixpoint last_opt {A} (l : list A) : option A :=
  match l with
  | [] => None
  | [x] => Some x
  | _ :: t => last_opt t
  end.

(** Entry of the previous-frame track [id] in the new dict, as the code
    produces it: the centroid of the last detection that matched it first,
    with its [counted] flag carried over. *)
Definition old_entry (tracked : tracks) (id : nat) (centroids : list point)
  : option track :=
  match last_opt (filter (claims tracked id) centroids), dict_get id tracked with
  | Some c, Some (_, counted) => Some (c, counted)
  | _, _ => None
  end.

End Tracker.

(* ------------------------------------------------------------------ *)
(** ** Crossing Counter and capacity alert (lines 134-165) *)

Module Session.
Import Tracker.

Record config := mk_config {
  line_position : Z;
  direction : string;
  threshold_count : nat
}.

(** The two guards of the crossing loop:
    [direction == 'down' and c[1] > line_position] and
    [direction == 'up' and c[1] < line_position]. *)
Definition crosses (direction : string) (line_position : Z) (c : point) : bool :=
  if String.eqb direction "down" && (line_position <? snd c)%Z then true
  else if String.eqb direction "up" && (snd c <? line_position)%Z then true
  else false.

(** [for id, (c, counted) in new_tracked.items(): ...]. Only the entry being
    visited is reassigned, so each entry is seen with its value from before
    the loop. Returns the updated dict, [total_count], and (as a log, not a
    program variable) the ids whose visit incremented [total_count]. *)
Fixpoint count_pass (direction : string) (line_position : Z) (d : tracks)
  (total_count : nat) : tracks * nat * list nat :=
  match d with
  | [] => ([], total_count, [])
  | (id, (c, counted)) :: rest =>
      if negb counted && crosses direction line_position c then
        let '(rest', total', log) :=
          count_pass direction line_position rest (S total_count) in
        ((id, (c, true)) :: rest', total', id :: log)
      else
        let '(rest', total', log) :=
          count_pass direction line_position rest total_count in
        ((id, (c, counted)) :: rest', total', log)
  end.

(** The variables of [count_people_live_camera] that survive a frame. *)
Record session := mk_session {
  tracked : tracks;
  next_id : nat;
  total_count : nat;
  send_counter : nat
}.

Definition init_session : session := mk_session [] 0 0 0.

(** What a frame does outside the session variables: the ids counted, whether
    [send_telegram_message] was called, and [total_count] after the frame. *)
Record frame_out := mk_frame_out {
  incremented : list nat;
  notified : bool;
  count_after : nat
}.

(** [if total_count > threshold_count: ... if send_counter < 1: send;
    send_counter += 1]; returns the new [send_counter] and whether the
    notification was sent. *)
Definition alert (threshold_count total_count send_counter : nat) : nat * bool :=
  if Nat.ltb threshold_count total_count then
    if Nat.ltb send_counter 1 then (S send_counter, true)
    else (send_counter, false)
  else (send_counter, false).

(** One iteration of the capture loop, from the detected centroids. *)
Definition frame_step (cfg : config) (s : session) (centroids : list point)
  : session * frame_out :=
  let '(new_tracked, next_id') := track_frame (tracked s) centroids (next_id s) in
  let '(new_tracked', total', inc) :=
    count_pass (direction cfg) (line_position cfg) new_tracked (total_count s) in
  let '(send', notif) := alert (threshold_count cfg) total' (send_counter s) in
  (mk_session new_tracked' next_id' total' send',
   mk_frame_out inc notif total').

Fixpoint run (cfg : config) (s : session) (frames : list (list point))
  : session * list frame_out :=
  match frames with
  | [] => (s, [])
  | cs :: fs =>
      let '(s1, o) := frame_step cfg s cs in
      let '(s2, os) := run cfg s1 fs in
      (s2, o :: os)
  end.

(** Consecutive centroids of a single person stay within distance 50. *)
Fixpoint near_chain (ps : list point) : bool :=
  match ps with
  | p :: ((q :: _) as rest) => near q p && near_chain rest
  | _ => true
  end.

(** Default element for [nth] on frame outputs. *)
Definition no_frame : frame_out := mk_frame_out [] false 0.

(** The ids counted over a run, frame after frame. *)
Definition log_of (outs : list frame_out) : list nat :=
  List.concat (map incremented outs).

(** What holds of the session variables between two frames, given the ids
    counted so far. *)
Definition session_inv (s : session) (log : list nat) : Prop :=
  NoDup (map fst (tracked s)) /\
  (forall id, In id (map fst (tracked s)) -> (id < next_id s)%nat) /\
  (forall id, In id log ->
     (id < next_id s)%nat /\
     forall v, dict_get id (tracked s) = Some v -> snd v = true) /\
  NoDup log /\
  total_count s = List.length log.

End Session.

(* ------------------------------------------------------------------ *)
(** ** Density Classifier ([AI_RTMP_Server/main.py]) *)

Module Density.

(** The float literals [0.0001], [0.00015], [0.0002] as rationals. *)
Definition t_low : Q := 1 # 10000.
Definition t_medium : Q := 15 # 100000.
Definition t_high : Q := 2 # 10000.

Definition get_crowd_risk (density : Q) : string :=
  if Qlt_le_dec density t_low then "Low"
  else if Qlt_le_dec density t_medium then "Medium"
  else if Qlt_le_dec density t_high then "High"
  else "Critical".

Definition get_crowd_status (density : Q) : string :=
  if Qlt_le_dec density t_low then "Stable"
  else if Qlt_le_dec density t_medium then "Unstable"
  else if Qlt_le_dec density t_high then "Congested"
  else "Critical".

(** [density = people_count / frame_area if frame_area > 0 else 0]. *)
Definition density (people_count frame_area : nat) : Q :=
  if Nat.ltb 0 frame_area
  then inject_Z (Z.of_nat people_count) / inject_Z (Z.of_nat frame_area)
  else 0.

(** Python's [x / y] on numbers: [ZeroDivisionError] when [y == 0]. *)
Inductive py_result (A : Type) := PyOk (a : A) | ZeroDivisionError.
Arguments PyOk {A} a.
Arguments ZeroDivisionError {A}.

Definition py_truediv (x y : Q) : py_result Q :=
  if Qeq_bool y 0 then ZeroDivisionError else PyOk (x / y).

(** The evaluation of [people_count / frame_area if frame_area > 0 else 0]:
    the condition first, then only the branch it selects. *)
Definition density_eval (people_count frame_area : nat) : py_result Q :=
  if Nat.ltb 0 frame_area
  then py_truediv (inject_Z (Z.of_nat people_count))
         (inject_Z (Z.of_nat frame_area))
  else PyOk 0.

(** Position of a risk label in the order Low < Medium < High < Critical. *)
Definition risk_rank (risk : string) : nat :=
  if String.eqb risk "Low" then 0
  else if String.eqb risk "Medium" then 1
  else if String.eqb risk "High" then 2
  else 3.

(** Position of a status label in the order Stable < Unstable < Congested
    < Critical. *)
Definition status_rank (status : string) : nat :=
  if String.eqb status "Stable" then 0
  else if String.eqb status "Unstable" then 1
  else if String.eqb status "Congested" then 2
  else 3.

End Density.

(* ------------------------------------------------------------------ *)
(** ** Pacing Scheduler ([People_Counter.py], lines 204-210) *)

Module Pacing.

Inductive pace_action :=
| PaceSleep (d : Q)   (** [time.sleep(sleep_time)] *)
| PaceWarn            (** the "Processing too slow" print *)
| PaceNone.

Definition pace (showCam : bool) (frame_interval processing_time : Q)
  : pace_action :=
  let sleep_time := frame_interval - processing_time in
  if Qlt_le_dec 0 sleep_time then PaceSleep sleep_time
  else if negb showCam then PaceWarn
  else PaceNone.

End Pacing.

(* ------------------------------------------------------------------ *)
(** ** Byte-stream transport and cleanup ([People_Counter.py], 89-223) *)

Module Transport.

Inductive exn := BrokenPipeError | KeyboardInterrupt.

(** Calls on the capture handle, the window and the ffmpeg subprocess. *)
Inductive event :=
| EPopen | ERead | EWrite | EFlush | EImshow
| ERelease | EDestroyWindows | EPoll | ECloseStdin | ETerminate | EWait.

(** What the outside world answers during one loop iteration. *)
Record iteration := mk_iteration {
  read_ok : bool;                  (** [ret] of [cap.read()] *)
  write_raises : option exn;       (** [ffmpeg_process.stdin.write] *)
  flush_raises : option exn;       (** [ffmpeg_process.stdin.flush] *)
  key_q : bool                     (** [cv2.waitKey(1) & 0xFF == ord('q')] *)
}.

Inductive step_result := Continue | Break | Raise (e : exn).

(** The body of [while True:] as far as the transport is concerned; the
    inner [try] catches [BrokenPipeError] only. *)
Definition body (it : iteration) : list event * step_result :=
  if negb (read_ok it) then ([ERead], Break)
  else
    match write_raises it with
    | Some BrokenPipeError => ([ERead; EWrite], Break)
    | Some e => ([ERead; EWrite], Raise e)
    | None =>
        match flush_raises it with
        | Some BrokenPipeError => ([ERead; EWrite; EFlush], Break)
        | Some e => ([ERead; EWrite; EFlush], Raise e)
        | None =>
            if key_q it then ([ERead; EWrite; EFlush; EImshow], Break)
            else ([ERead; EWrite; EFlush; EImshow], Continue)
        end
    end.

(** The loop, over the iterations the world supplies; when they run out
    the next read fails. Returns the events and the exception, if any, that
    left the loop. *)
Fixpoint capture_loop (its : list iteration) : list event * option exn :=
  match its with
  | [] => ([ERead], None)
  | it :: rest =>
      let '(evs, r) := body it in
      match r with
      | Continue =>
          let '(evs', e) := capture_loop rest in (evs ++ evs', e)
      | Break => (evs, None)
      | Raise e => (evs, Some e)
      end
  end.

(** The [finally] block; [alive] is [ffmpeg_process.poll() is None]. *)
Definition cleanup (alive : bool) : list event :=
  [ERelease; EDestroyWindows; EPoll] ++
  (if alive then [ECloseStdin; ETerminate; EWait] else []).

Inductive outcome := Returned | Raised (e : exn).

(** [Popen], then [try: while True: ... except KeyboardInterrupt: ...
    finally: cleanup]. *)
Definition session_run (its : list iteration) (alive : bool)
  : list event * outcome :=
  let '(evs, e) := capture_loop its in
  let res :=
    match e with
    | None => Returned
    | Some KeyboardInterrupt => Returned
    | Some e' => Raised e'
    end in
  (EPopen :: evs ++ cleanup alive, res).

(** An iteration that reads, writes and flushes a frame and goes on. *)
Definition normal_iteration (it : iteration) : Prop :=
  read_ok it = true /\ write_raises it = None /\ flush_raises it = None /\
  key_q it = false.

End Transport.

(* ------------------------------------------------------------------ *)
(** ** Periodic Task Gate ([process_frame_realtime], lines 89-106) *)

Module FaceGate.

(** [os.listdir(DEEPFACE_DB_PATH) and frame_count % 30 == 0 and
    people_count > 0]. *)
Definition gate (registry : list string) (frame_count people_count : nat) : bool :=
  negb (match registry with [] => true | _ => false end)
  && Nat.eqb (frame_count mod 30) 0 && Nat.ltb 0 people_count.

(** [detected_persons] and whether [DeepFace.find] was called. [find] is the
    answer of [DeepFace.find] ([None] when it raises); each data frame is the
    list of its [identity] paths, and [name_of] the basename/title
    rewriting of line 104. *)
Definition recognize (name_of : string -> string) (registry : list string)
  (frame_count people_count : nat) (find : option (list (list string)))
  : bool * list string :=
  if gate registry frame_count people_count then
    (true,
     match find with
     | None => []
     | Some dfs =>
         nodup string_dec
           (List.concat (map (fun df => match df with
                                   | [] => []
                                   | _ => map name_of df
                                   end) dfs))
     end)
  else (false, []).

End FaceGate.

(* ------------------------------------------------------------------ *)
(** ** Notification sink ([send_telegram_message], lines 21-37) *)

Module Telegram.

(** [receiver] is either the integer channel id or a user name. *)
Inductive chat_id := RInt (z : Z) | RStr (s : string).

(** [if isinstance(receiver, str) and not receiver.startswith('@') and not
    receiver.startswith('+'): receiver = '@' + receiver]. *)
Definition normalize_receiver (r : chat_id) : chat_id :=
  match r with
  | RStr s =>
      if negb (String.prefix "@" s) && negb (String.prefix "+" s)
      then RStr ("@" ++ s) else r
  | RInt _ => r
  end.

(** The [data] of the [requests.post] call, or [None] when the function
    returns early because [TELEGRAM_BOT_TOKEN] is unset or empty. *)
Definition send_telegram_message (token : option string) (receiver : chat_id)
  (message : string) : option (chat_id * string) :=
  match token with
  | None => None
  | Some t =>
      if String.eqb t "" then None
      else Some (normalize_receiver receiver, message)
  end.

End Telegram.

(* ------------------------------------------------------------------ *)
(** ** Capture set-up and detection adapter ([count_people_live_camera]) *)

Module Capture.
Import Tracker.

(** Lines 42-51: a live camera runs at 30 fps; a file at the rate
    [cap.get(cv2.CAP_PROP_FPS)] reports, or 30 when that is [<= 0]. *)
Definition choose_fps (showCam : bool) (reported : Q) : Q :=
  if showCam then 30
  else if Qle_bool reported 0 then 30 else reported.

(** A box [x1, y1, x2, y2 = map(int, box)]. *)
Definition box := (Z * Z * Z * Z)%type.

(** Lines 110-118: boxes of class 0 (person) give the centroid
    [((x1 + x2) // 2, (y1 + y2) // 2)]; other classes are skipped. *)
Fixpoint centroids_of (boxes : list (box * Z)) : list point :=
  match boxes with
  | [] => []
  | ((x1, y1, x2, y2), cls) :: rest =>
      if negb (Z.eqb cls 0) then centroids_of rest
      else (((x1 + x2) / 2)%Z, ((y1 + y2) / 2)%Z) :: centroids_of rest
  end.

End Capture.

(* ------------------------------------------------------------------ *)
(** ** WebSocket frame loop ([websocket_endpoint], lines 151-158) *)

Module Websocket.

(** Whether [process_frame_realtime(frame, frame_count)] calls
    [DeepFace.find], frame after frame, for the people counts of the frames
    read; [frame_count] starts at 0 and grows by one per frame. *)
Fixpoint face_calls (registry : list string) (frame_count : nat)
  (people_counts : list nat) : list bool :=
  match people_counts with
  | [] => []
  | p :: ps =>
      FaceGate.gate registry frame_count p
        :: face_calls registry (S frame_count) ps
  end.

Definition websocket_face_calls (registry : list string) (people_counts : list nat)
  : list bool :=
  face_calls registry 0 people_counts.

End Websocket.

(* ------------------------------------------------------------------ *)
(** ** Face registry endpoints ([AI_RTMP_Server/main.py], lines 174-242) *)

Module Faces.

(** Python strings of ASCII characters. *)
Definition str := list ascii.

Definition str_eqb (a b : str) : bool :=
  if list_eq_dec ascii_dec a b then true else false.

(** [str.lower] on ASCII: A-Z to a-z. *)
Definition lower (c : ascii) : ascii :=
  let n := nat_of_ascii c in
  if (65 <=? n)%nat && (n <=? 90)%nat then ascii_of_nat (n + 32) else c.

(** [.replace(' ', '_')] on one character. *)
Definition space_to_underscore (c : ascii) : ascii :=
  if ascii_dec c " "%char then "_"%char else c.

(** The class [[a-z0-9_]]. *)
Definition is_safe (c : ascii) : bool :=
  let n := nat_of_ascii c in
  ((97 <=? n)%nat && (n <=? 122)%nat) || ((48 <=? n)%nat && (n <=? 57)%nat)
  || (n =? 95)%nat.

(** [re.sub(r'[^a-z0-9_]', '', name.lower().replace(' ', '_'))]. *)
Definition sanitize (name : str) : str :=
  filter is_safe (map space_to_underscore (map lower name)).

(** [p.rfind(c)]: the last index of [c], [None] for -1. *)
Fixpoint rfind_from (c : ascii) (p : str) (i : nat) (acc : option nat)
  : option nat :=
  match p with
  | [] => acc
  | x :: p' =>
      rfind_from c p' (S i) (if ascii_dec x c then Some i else acc)
  end.

Definition rfind (c : ascii) (p : str) : option nat := rfind_from c p 0 None.

(** [posixpath.splitext] ([genericpath._splitext] with [sep = '/'],
    [extsep = '.']); the [while] loop looks for a character other than
    ['.'] in [p[filenameIndex:dotIndex]]. *)
Definition splitext (p : str) : str * str :=
  let sepIndex := rfind "/"%char p in
  match rfind "."%char p with
  | None => (p, [])
  | Some dotIndex =>
      let after_sep :=
        match sepIndex with None => true | Some s => (s <? dotIndex)%nat end in
      if after_sep then
        let filenameIndex :=
          match sepIndex with None => 0%nat | Some s => S s end in
        if existsb (fun c => negb (Ascii.eqb c "."%char))
             (firstn (dotIndex - filenameIndex) (skipn filenameIndex p))
        then (firstn dotIndex p, skipn dotIndex p)
        else (p, [])
      else (p, [])
  end.

(** [s.endswith(suffix)]. *)
Definition ends_with (s suffix : str) : bool :=
  (List.length suffix <=? List.length s)%nat &&
  str_eqb (skipn (List.length s - List.length suffix) s) suffix.

Definition allowed_exts : list str :=
  map list_ascii_of_string [".png"; ".jpg"; ".jpeg"]%string.

Definition cache_file : str := list_ascii_of_string "representations_vgg_face.pkl"%string.

(** The file names [os.listdir(DEEPFACE_DB_PATH)] returns. *)
Definition listing := list str.

Inductive response (A : Type) := Ok (a : A) | HTTPError (code : nat).
Arguments Ok {A} a.
Arguments HTTPError {A} code.

(** [get_known_faces]. *)
Definition get_known_faces (dir : listing) : list str :=
  map (fun f => fst (splitext f))
    (filter (fun f => existsb (ends_with (map lower f)) allowed_exts) dir).

(** [add_known_face]: the response (the safe name and the file name written
    under [known_faces]) and the directory afterwards. The write itself is
    taken to succeed; the new name is placed last in the listing, whose
    order [os.listdir] leaves open. *)
Definition add_known_face (dir : listing) (name filename : str)
  : response (str * str) * listing :=
  let safe_name := sanitize name in
  match safe_name with
  | [] => (HTTPError 400, dir)
  | _ =>
      let file_extension := snd (splitext filename) in
      if negb (existsb (str_eqb (map lower file_extension)) allowed_exts)
      then (HTTPError 400, dir)
      else
        let fname := safe_name ++ file_extension in
        if existsb (str_eqb fname) dir then (HTTPError 409, dir)
        else
          let dir1 := dir ++ [fname] in
          let dir2 :=
            if existsb (str_eqb cache_file) dir1
            then filter (fun g => negb (str_eqb g cache_file)) dir1
            else dir1 in
          (Ok (safe_name, fname), dir2)
  end.

Fixpoint remove_first (f : str) (dir : listing) : listing :=
  match dir with
  | [] => []
  | g :: dir' => if str_eqb g f then dir' else g :: remove_first f dir'
  end.

(** [delete_known_face]: the first listed file whose stem is [face_name] is
    removed (the removal taken to succeed), then the cache file if present. *)
Definition delete_known_face (dir : listing) (face_name : str)
  : response str * listing :=
  match find (fun f => str_eqb (fst (splitext f)) face_name) dir with
  | None => (HTTPError 404, dir)
  | Some f =>
      let dir1 := remove_first f dir in
      let dir2 :=
        if existsb (str_eqb cache_file) dir1
        then filter (fun g => negb (str_eqb g cache_file)) dir1
        else dir1 in
      (Ok f, dir2)
  end.

(** Where the [try] block of [add_known_face] (lines 205-215) fails, if it
    does: [open] (nothing written), [shutil.copyfileobj] (the file is left,
    possibly partial) or the removal of the cache file. Each answers 500. *)
Inductive add_fault := AddNoFault | OpenFails | CopyFails | AddCacheRemoveFails.

(** [add_known_face] with its 500 path; [add_known_face] above is the run
    with [AddNoFault]. *)
Definition add_known_face_io (fault : add_fault) (dir : listing)
  (name filename : str) : response (str * str) * listing :=
  let safe_name := sanitize name in
  match safe_name with
  | [] => (HTTPError 400, dir)
  | _ =>
      let file_extension := snd (splitext filename) in
      if negb (existsb (str_eqb (map lower file_extension)) allowed_exts)
      then (HTTPError 400, dir)
      else
        let fname := safe_name ++ file_extension in
        if existsb (str_eqb fname) dir then (HTTPError 409, dir)
        else
          match fault with
          | OpenFails => (HTTPError 500, dir)
          | CopyFails => (HTTPError 500, dir ++ [fname])
          | _ =>
              let dir1 := dir ++ [fname] in
              if existsb (str_eqb cache_file) dir1
              then
                match fault with
                | AddCacheRemoveFails => (HTTPError 500, dir1)
                | _ => (Ok (safe_name, fname),
                        filter (fun g => negb (str_eqb g cache_file)) dir1)
                end
              else (Ok (safe_name, fname), dir1)
          end
  end.

(** Where the [try] block of [delete_known_face] (lines 233-242) fails, if
    it does: [os.remove] of the file found, or of the cache file. Each
    answers 500. *)
Inductive delete_fault := DelNoFault | RemoveFails | DelCacheRemoveFails.

(** [delete_known_face] with its 500 path; [delete_known_face] above is the
    run with [DelNoFault]. *)
Definition delete_known_face_io (fault : delete_fault) (dir : listing)
  (face_name : str) : response str * listing :=
  match find (fun f => str_eqb (fst (splitext f)) face_name) dir with
  | None => (HTTPError 404, dir)
  | Some f =>
      match fault with
      | RemoveFails => (HTTPError 500, dir)
      | _ =>
          let dir1 := remove_first f dir in
          if existsb (str_eqb cache_file) dir1
          then
            match fault with
            | DelCacheRemoveFails => (HTTPError 500, dir1)
            | _ => (Ok f, filter (fun g => negb (str_eqb g cache_file)) dir1)
            end
          else (Ok f, dir1)
      end
  end.

End Faces.

(* ------------------------------------------------------------------ *)
(** ** Crowd metrics of one frame ([process_frame_realtime], lines 65-86) *)

Module Realtime.
Import Density.

(** [cv2.resize(frame, (640, 480))]: [frame_area = 480 * 640]. *)
Definition frame_area : nat := 480 * 640.

(** [density], [risk] and [status] of a frame with [people_count] persons. *)
Definition metrics (people_count : nat) : Q * string * string :=
  let d := density people_count frame_area in
  (d, get_crowd_risk d, get_crowd_status d).

End Realtime.

(* ================================================================== *)
(** * Properties *)

Import Tracker Session.
Local Open Scope nat_scope.

(** ** Dict lemmas *)

Lemma dict_get_set k k' v d :
  dict_get k (dict_set k' v d) = if Nat.eqb k k' then Some v else dict_get k d.
Proof.
  induction d as [|[k'' v''] d IH]; simpl.
  - destruct (Nat.eqb k k'); reflexivity.
  - destruct (Nat.eqb_spec k' k''); simpl.
    + subst. destruct (Nat.eqb k k''); reflexivity.
    + rewrite IH. destruct (Nat.eqb_spec k k''), (Nat.eqb_spec k k'); subst;
        simpl; congruence.
Qed.

Lemma dict_set_keys k v d x :
  In x (map fst (dict_set k v d)) <-> x = k \/ In x (map fst d).
Proof.
  induction d as [|[k'' v''] d IH]; simpl.
  - intuition congruence.
  - destruct (Nat.eqb_spec k k''); simpl.
    + subst. intuition congruence.
    + rewrite IH. intuition congruence.
Qed.

Lemma dict_set_nodup k v d :
  NoDup (map fst d) -> NoDup (map fst (dict_set k v d)).
Proof.
  induction d as [|[k'' v''] d IH]; simpl; intros Hnd.
  - repeat constructor. simpl; tauto.
  - inversion Hnd as [|? ? Hnin Hnd']; subst.
    destruct (Nat.eqb_spec k k''); simpl.
    + subst. constructor; assumption.
    + constructor; [|auto]. rewrite dict_set_keys. intros [|]; [congruence|tauto].
Qed.

Lemma dict_get_in k d v : dict_get k d = Some v -> In k (map fst d).
Proof.
  induction d as [|[k' v'] d IH]; simpl; [discriminate|].
  destruct (Nat.eqb_spec k k'); auto.
Qed.

Lemma dict_in_get k d : In k (map fst d) -> exists v, dict_get k d = Some v.
Proof.
  induction d as [|[k' v'] d IH]; simpl; [tauto|].
  destruct (Nat.eqb_spec k k'); [eauto|].
  intros [|]; [congruence|auto].
Qed.

Lemma first_match_in tracked c i b :
  NoDup (map fst tracked) -> first_match tracked c = Some (i, b) ->
  In i (map fst tracked) /\ exists oc, dict_get i tracked = Some (oc, b).
Proof.
  induction tracked as [|[id [oc cnt]] rest IH]; simpl; [discriminate|].
  intros Hnd. inversion Hnd as [|? ? Hnin Hnd']; subst.
  destruct (near c oc).
  - intros [= <- <-]. rewrite Nat.eqb_refl. eauto.
  - intros Hf. destruct (IH Hnd' Hf) as [Hin Hget]. split; [tauto|].
    destruct (Nat.eqb_spec i id); [subst; contradiction|exact Hget].
Qed.

Lemma last_opt_snoc {A} (l : list A) x : last_opt (l ++ [x]) = Some x.
Proof.
  induction l as [|a l IH]; [reflexivity|].
  simpl. destruct l; [reflexivity|]. exact IH.
Qed.

(** ** The association loop, entry by entry *)

Lemma track_frame_lookup (tracked : tracks) (centroids : list point)
  (next_id : nat) :
  NoDup (map fst tracked) ->
  (forall id, In id (map fst tracked) -> id < next_id) ->
  let '(d, n) := track_frame tracked centroids next_id in
  n = next_id + List.length (filter (unmatched tracked) centroids) /\
  (forall id, id < next_id -> dict_get id d = old_entry tracked id centroids) /\
  (forall j, dict_get (next_id + j) d =
     option_map (fun c => (c, false))
       (nth_error (filter (unmatched tracked) centroids) j)).
Proof.
  intros Hnd Hlt. unfold track_frame.
  induction centroids as [|c cs IH] using rev_ind.
  - simpl. split; [lia|split].
    + intros id _. reflexivity.
    + intros j. destruct j; reflexivity.
  - rewrite fold_left_app. simpl.
    destruct (fold_left (assign_step tracked) cs ([], next_id)) as [d n].
    destruct IH as (Hn & Hold & Hnew). simpl.
    unfold old_entry in *. unfold claims, unmatched in *.
    destruct (first_match tracked c) as [[i b]|] eqn:Hfm.
    + destruct (first_match_in _ _ _ _ Hnd Hfm) as [Hin [oc Hget]].
      pose proof (Hlt _ Hin) as Hi.
      split; [|split].
      * rewrite filter_app; simpl; rewrite Hfm, app_nil_r. exact Hn.
      * intros id Hid. rewrite dict_get_set, filter_app. simpl. rewrite Hfm.
        destruct (Nat.eqb_spec id i).
        -- subst. rewrite Nat.eqb_refl, last_opt_snoc, Hget. reflexivity.
        -- replace (Nat.eqb i id) with false
             by (symmetry; apply Nat.eqb_neq; congruence).
           rewrite app_nil_r. apply Hold; exact Hid.
      * intros j. rewrite dict_get_set, filter_app. simpl. rewrite Hfm, app_nil_r.
        replace (Nat.eqb (next_id + j) i) with false
          by (symmetry; apply Nat.eqb_neq; lia).
        apply Hnew.
    + split; [|split].
      * rewrite filter_app; simpl; rewrite Hfm, length_app; simpl; lia.
      * intros id Hid. rewrite dict_get_set, filter_app. simpl. rewrite Hfm, app_nil_r.
        replace (Nat.eqb id n) with false by (symmetry; apply Nat.eqb_neq; lia).
        apply Hold; exact Hid.
      * intros j. rewrite dict_get_set, filter_app. simpl. rewrite Hfm.
        set (f := filter _ cs) in *.
        destruct (Nat.eqb_spec (next_id + j) n) as [Hj|Hj].
        -- assert (j = List.length f) by lia. subst j.
           rewrite nth_error_app2 by lia. rewrite Nat.sub_diag. reflexivity.
        -- rewrite Hnew. destruct (Nat.lt_ge_cases j (List.length f)) as [Hl|Hl].
           ++ rewrite nth_error_app1 by exact Hl. reflexivity.
           ++ assert (j <> List.length f) by lia.
              rewrite (proj2 (nth_error_None f j)) by lia.
              rewrite (proj2 (nth_error_None (f ++ [c]) j))
                by (rewrite length_app; simpl; lia).
              reflexivity.
Qed.

(** ** The crossing loop *)

Section CountPass.
Variables (dir : string) (line : Z).

Lemma count_pass_spec (d : tracks) (t : nat) :
  let '(d', t', log) := count_pass dir line d t in
  map fst d' = map fst d /\
  t' = t + List.length log /\
  (forall id, dict_get id d' =
     match dict_get id d with
     | Some (c, b) => Some (c, b || crosses dir line c)
     | None => None
     end) /\
  (NoDup (map fst d) ->
   NoDup log /\
   forall id, In id log ->
     exists c, dict_get id d = Some (c, false) /\ crosses dir line c = true).
Proof.
  revert t. induction d as [|[id [c b]] rest IH]; intros t; simpl.
  - split; [reflexivity|split; [lia|split; [reflexivity|]]].
    intros _. split; [constructor|intros ? []].
  - destruct (negb b && crosses dir line c) eqn:Hx.
    + specialize (IH (S t)).
      destruct (count_pass dir line rest (S t)) as [[r' t'] log].
      destruct IH as (Hk & Ht & Hg & Hn). simpl.
      apply andb_true_iff in Hx as [Hb Hc]. apply negb_true_iff in Hb. subst b.
      split; [congruence|split; [lia|split]].
      * intros k. destruct (Nat.eqb k id); [rewrite Hc; reflexivity|apply Hg].
      * intros Hnd. inversion Hnd as [|? ? Hnin Hnd']; subst.
        destruct (Hn Hnd') as [Hlog Hin]. split.
        -- constructor; [|exact Hlog]. intros Hl.
           destruct (Hin _ Hl) as [c' [Hc' _]]. apply Hnin. eapply dict_get_in; eauto.
        -- intros k [<-|Hk']; [rewrite Nat.eqb_refl; eauto|].
           destruct (Nat.eqb_spec k id); [|apply Hin; exact Hk'].
           subst. exfalso. destruct (Hin _ Hk') as [c' [Hc' _]].
           apply Hnin. eapply dict_get_in; eauto.
    + specialize (IH t).
      destruct (count_pass dir line rest t) as [[r' t'] log].
      destruct IH as (Hk & Ht & Hg & Hn). simpl.
      split; [congruence|split; [lia|split]].
      * intros k. destruct (Nat.eqb k id); [|apply Hg].
        destruct b; simpl in *; [reflexivity|rewrite Hx; reflexivity].
      * intros Hnd. inversion Hnd as [|? ? Hnin Hnd']; subst.
        destruct (Hn Hnd') as [Hlog Hin]. split; [exact Hlog|].
        intros k Hk'. destruct (Nat.eqb_spec k id); [|apply Hin; exact Hk'].
        subst. exfalso. destruct (Hin _ Hk') as [c' [Hc' _]].
        apply Hnin. eapply dict_get_in; eauto.
Qed.

End CountPass.

(** ** Facts about one frame, as used by the session invariant *)

Lemma track_frame_entries (tracked : tracks) (cs : list point) (n0 : nat) :
  NoDup (map fst tracked) ->
  (forall id, In id (map fst tracked) -> id < n0) ->
  let '(d, n) := track_frame tracked cs n0 in
  NoDup (map fst d) /\ n0 <= n /\
  (forall id, In id (map fst d) -> id < n) /\
  (forall id c b, dict_get id d = Some (c, b) ->
     (id < n0 /\ exists c0, dict_get id tracked = Some (c0, b)) \/
     (n0 <= id /\ b = false)).
Proof.
  intros Hnd Hlt.
  pose proof (track_frame_lookup tracked cs n0 Hnd Hlt) as Hl.
  assert (Hnd' : NoDup (map fst (fst (track_frame tracked cs n0)))).
  { unfold track_frame.
    assert (forall l acc, NoDup (map fst (fst acc)) ->
              NoDup (map fst (fst (fold_left (assign_step tracked) l acc)))) as G.
    { induction l as [|x l IH]; intros [a m] Ha; simpl; [exact Ha|].
      apply IH. unfold assign_step.
      destruct (first_match tracked x) as [[? ?]|]; apply dict_set_nodup; exact Ha. }
    apply G. constructor. }
  destruct (track_frame tracked cs n0) as [d n].
  destruct Hl as (Hn & Hold & Hnew). simpl in Hnd'.
  assert (Hent : forall id c b, dict_get id d = Some (c, b) ->
     (id < n0 /\ exists c0, dict_get id tracked = Some (c0, b)) \/
     (n0 <= id /\ b = false /\
      id < n0 + List.length (filter (unmatched tracked) cs))).
  { intros id c b Hg. destruct (Nat.lt_ge_cases id n0) as [Hi|Hi].
    - left. split; [exact Hi|]. rewrite Hold in Hg by exact Hi.
      unfold old_entry in Hg.
      destruct (last_opt _); [|discriminate].
      destruct (dict_get id tracked) as [[c0 b0]|]; [|discriminate].
      injection Hg as <- <-. eauto.
    - right. replace id with (n0 + (id - n0)) in Hg by lia.
      rewrite Hnew in Hg.
      destruct (nth_error _ (id - n0)) eqn:E; [|discriminate].
      injection Hg as <- <-. split; [lia|split; [reflexivity|]].
      assert (id - n0 < List.length (filter (unmatched tracked) cs)).
      { apply nth_error_Some. congruence. }
      lia. }
  split; [exact Hnd'|split; [lia|split]].
  - intros id Hin. destruct (dict_in_get _ _ Hin) as [[c b] Hg].
    destruct (Hent _ _ _ Hg) as [[Hi _]|(_ & _ & Hi)]; lia.
  - intros id c b Hg. destruct (Hent _ _ _ Hg) as [H|(H1 & H2 & _)]; auto.
Qed.

(** ** One frame of the session *)

Lemma frame_step_facts (cfg : config) (s : session) (cs : list point) :
  NoDup (map fst (tracked s)) ->
  (forall id, In id (map fst (tracked s)) -> id < next_id s) ->
  let '(s', o) := frame_step cfg s cs in
  NoDup (map fst (tracked s')) /\
  (forall id, In id (map fst (tracked s')) -> id < next_id s') /\
  next_id s <= next_id s' /\
  total_count s' = total_count s + List.length (incremented o) /\
  count_after o = total_count s' /\
  send_counter s' = fst (alert (threshold_count cfg) (total_count s') (send_counter s)) /\
  notified o = snd (alert (threshold_count cfg) (total_count s') (send_counter s)) /\
  NoDup (incremented o) /\
  (forall id, In id (incremented o) ->
     (forall v, dict_get id (tracked s) = Some v -> snd v = false) /\
     (dict_get id (tracked s) = None -> next_id s <= id) /\
     exists c, dict_get id (tracked s') = Some (c, true)) /\
  (forall id v, dict_get id (tracked s') = Some v -> id < next_id s ->
     exists v0, dict_get id (tracked s) = Some v0 /\
       (snd v0 = true -> snd v = true)).
Proof.
  intros Hnd Hlt. unfold frame_step.
  pose proof (track_frame_entries (tracked s) cs (next_id s) Hnd Hlt) as Ht.
  destruct (track_frame (tracked s) cs (next_id s)) as [d n].
  destruct Ht as (Hndd & Hn & Hltd & Hent).
  pose proof (count_pass_spec (direction cfg) (line_position cfg) d (total_count s))
    as Hc.
  destruct (count_pass (direction cfg) (line_position cfg) d (total_count s))
    as [[d' t'] inc].
  destruct Hc as (Hk & Htot & Hg & Hlog).
  destruct (Hlog Hndd) as [Hndinc Hinc].
  destruct (alert (threshold_count cfg) t' (send_counter s)) as [snd' nt] eqn:Ha.
  simpl. rewrite Hk.
  split; [exact Hndd|split; [exact Hltd|split; [exact Hn|split; [exact Htot|]]]].
  split; [reflexivity|split; [rewrite Ha; reflexivity|split; [rewrite Ha; reflexivity|split; [exact Hndinc|]]]].
  split.
  - intros id Hid. destruct (Hinc _ Hid) as (c & Hd & Hcr).
    destruct (Hent _ _ _ Hd) as [[Hi (c0 & Hg0)]|[Hi _]].
    + split; [intros v Hv; rewrite Hg0 in Hv; injection Hv as <-; reflexivity|].
      split; [congruence|].
      exists c. rewrite Hg, Hd, Hcr. reflexivity.
    + split.
      * intros v Hv. exfalso. apply dict_get_in in Hv. apply Hlt in Hv. lia.
      * split; [intros _; exact Hi|]. exists c. rewrite Hg, Hd, Hcr. reflexivity.
  - intros id v Hv Hi. rewrite Hg in Hv.
    destruct (dict_get id d) as [[c b]|] eqn:Hd; [|discriminate].
    injection Hv as <-.
    destruct (Hent _ _ _ Hd) as [[_ (c0 & Hg0)]|[Hi' _]]; [|lia].
    exists (c0, b). split; [exact Hg0|]. simpl. intros ->. reflexivity.
Qed.

Lemma frame_step_inv (cfg : config) (s : session) (cs : list point)
  (log : list nat) :
  session_inv s log ->
  let '(s', o) := frame_step cfg s cs in
  session_inv s' (log ++ incremented o).
Proof.
  intros (Hnd & Hlt & Hlog & Hndl & Htot).
  pose proof (frame_step_facts cfg s cs Hnd Hlt) as F.
  destruct (frame_step cfg s cs) as [s' o].
  destruct F as (Hnd' & Hlt' & Hn & Htot' & _ & _ & _ & Hndinc & Hinc & Hback).
  split; [exact Hnd'|split; [exact Hlt'|split; [|split]]].
  - intros id Hin. apply in_app_or in Hin as [Hin|Hin].
    + destruct (Hlog _ Hin) as [Hi Hcnt]. split; [lia|].
      intros v Hv. destruct (Hback _ _ Hv Hi) as (v0 & Hv0 & Himp).
      apply Himp, (Hcnt _ Hv0).
    + destruct (Hinc _ Hin) as (_ & _ & c & Hc). split.
      * apply Hlt'. eapply dict_get_in; eauto.
      * intros v Hv. rewrite Hc in Hv. injection Hv as <-. reflexivity.
  - apply NoDup_app; [exact Hndl|exact Hndinc|].
    intros id Hin Hin'. destruct (Hlog _ Hin) as [Hi Hcnt].
    destruct (Hinc _ Hin') as (Hfalse & Hnone & _).
    destruct (dict_get id (tracked s)) as [v|] eqn:Hv.
    + pose proof (Hcnt _ eq_refl) as H1. rewrite (Hfalse _ eq_refl) in H1.
      discriminate.
    + specialize (Hnone eq_refl). lia.
  - rewrite Htot', Htot, length_app. reflexivity.
Qed.

Lemma run_snoc (cfg : config) (s : session) (fs : list (list point))
  (cs : list point) :
  run cfg s (fs ++ [cs]) =
  let '(s1, os) := run cfg s fs in
  let '(s2, o) := frame_step cfg s1 cs in
  (s2, os ++ [o]).
Proof.
  revert s. induction fs as [|f fs IH]; intros s; simpl.
  - destruct (frame_step cfg s cs). reflexivity.
  - destruct (frame_step cfg s f) as [s1 o1]. rewrite IH.
    destruct (run cfg s1 fs) as [s2 os].
    destruct (frame_step cfg s2 cs). reflexivity.
Qed.

Lemma run_inv (cfg : config) (fs : list (list point)) :
  session_inv (fst (run cfg init_session fs)) (log_of (snd (run cfg init_session fs))).
Proof.
  induction fs as [|cs fs IH] using rev_ind.
  - simpl. unfold session_inv, log_of. simpl.
    split; [constructor|split; [intros ? []|split; [intros ? []|split; [constructor|reflexivity]]]].
  - rewrite run_snoc. destruct (run cfg init_session fs) as [s1 os].
    simpl in IH. pose proof (frame_step_inv cfg s1 cs _ IH) as H.
    destruct (frame_step cfg s1 cs) as [s2 o]. simpl.
    unfold log_of in *. rewrite map_app, concat_app. simpl.
    rewrite app_nil_r. exact H.
Qed.

(** ** A single person, one detection per frame *)

Lemma frame_step_alert (cfg : config) (s : session) (cs : list point) :
  let '(s', o) := frame_step cfg s cs in
  count_after o = total_count s' /\
  (send_counter s', notified o)
    = alert (threshold_count cfg) (total_count s') (send_counter s).
Proof.
  unfold frame_step.
  destruct (track_frame (tracked s) cs (next_id s)) as [d n].
  destruct (count_pass (direction cfg) (line_position cfg) d (total_count s))
    as [[d' t'] inc].
  destruct (alert (threshold_count cfg) t' (send_counter s)) as [x y] eqn:E.
  simpl. split; [reflexivity|symmetry; exact E].
Qed.

Lemma frame_step_single (cfg : config) (s : session) (id : nat) (p q : point)
  (b : bool) :
  tracked s = [(id, (p, b))] -> near q p = true ->
  let '(s', _) := frame_step cfg s [q] in
  tracked s' = [(id, (q, b || crosses (direction cfg) (line_position cfg) q))] /\
  total_count s' = total_count s +
    (if negb b && crosses (direction cfg) (line_position cfg) q then 1 else 0).
Proof.
  intros Ht Hn. unfold frame_step, track_frame. rewrite Ht. cbn -[near crosses].
  rewrite Hn. cbn -[near crosses].
  destruct (negb b && crosses (direction cfg) (line_position cfg) q) eqn:E.
  - apply andb_true_iff in E as [Hb Hc]. apply negb_true_iff in Hb. subst b.
    destruct (alert _ _ _). simpl. rewrite Hc. split; [reflexivity|lia].
  - destruct (alert _ _ _). simpl. split; [|lia].
    destruct b; [reflexivity|]. simpl in E. rewrite E. reflexivity.
Qed.

Lemma frame_step_first (cfg : config) (s : session) (q : point) :
  tracked s = [] ->
  let '(s', _) := frame_step cfg s [q] in
  tracked s' = [(next_id s, (q, crosses (direction cfg) (line_position cfg) q))] /\
  total_count s' = total_count s +
    (if crosses (direction cfg) (line_position cfg) q then 1 else 0).
Proof.
  intros Ht. unfold frame_step, track_frame. rewrite Ht. cbn -[near crosses].
  destruct (crosses (direction cfg) (line_position cfg) q) eqn:E;
    destruct (alert _ _ _); simpl; split; try reflexivity; lia.
Qed.

Lemma single_track_run (cfg : config) (ps : list point) :
  forall s id p b,
  tracked s = [(id, (p, b))] -> near_chain (p :: ps) = true ->
  total_count (fst (run cfg s (map (fun q => [q]) ps))) =
  total_count s +
    (if b then 0
     else if existsb (crosses (direction cfg) (line_position cfg)) ps then 1 else 0).
Proof.
  induction ps as [|q ps IH]; intros s id p b Ht Hc; simpl.
  - destruct b; lia.
  - simpl in Hc. apply andb_true_iff in Hc as [Hn Hc].
    pose proof (frame_step_single cfg s id p q b Ht Hn) as F.
    destruct (frame_step cfg s [q]) as [s1 o].
    destruct F as [Ht1 Htot1].
    pose proof (IH s1 id q _ Ht1 Hc) as H.
    destruct (run cfg s1 (map (fun q0 => [q0]) ps)) as [s2 os]. simpl in *.
    rewrite H, Htot1.
    destruct b, (crosses (direction cfg) (line_position cfg) q); simpl; lia.
Qed.

Lemma near_chain_firstn (ps : list point) (k : nat) :
  near_chain ps = true -> near_chain (firstn k ps) = true.
Proof.
  revert k. induction ps as [|p ps IH]; intros k Hc.
  - rewrite firstn_nil. reflexivity.
  - destruct k as [|k]; [reflexivity|]. simpl firstn.
    destruct ps as [|q ps'].
    + rewrite firstn_nil. reflexivity.
    + simpl in Hc. apply andb_true_iff in Hc as [Hn Hc].
      specialize (IH k Hc). destruct k as [|k]; [reflexivity|].
      simpl firstn in *. simpl. rewrite Hn. exact IH.
Qed.

Lemma single_person_count (cfg : config) (s : session) (ps : list point) :
  tracked s = [] -> near_chain ps = true ->
  total_count (fst (run cfg s (map (fun q => [q]) ps))) =
  total_count s +
    (if existsb (crosses (direction cfg) (line_position cfg)) ps then 1 else 0).
Proof.
  intros Ht Hc. destruct ps as [|q ps]; [simpl; lia|].
  simpl. pose proof (frame_step_first cfg s q Ht) as F.
  destruct (frame_step cfg s [q]) as [s1 o]. destruct F as [Ht1 Htot1].
  pose proof (single_track_run cfg ps s1 _ q _ Ht1 Hc) as H.
  destruct (run cfg s1 (map (fun q0 => [q0]) ps)) as [s2 os]. simpl in *.
  rewrite H, Htot1.
  destruct (crosses (direction cfg) (line_position cfg) q); simpl; lia.
Qed.

Lemma firstn_S_nth {A} (l : list A) (k : nat) (d : A) :
  k < List.length l -> firstn (S k) l = firstn k l ++ [nth k l d].
Proof.
  revert k. induction l as [|a l IH]; intros k Hk; simpl in Hk; [lia|].
  destruct k as [|k]; [reflexivity|].
  change (firstn (S (S k)) (a :: l)) with (a :: firstn (S k) l).
  rewrite IH by lia. reflexivity.
Qed.

(** ** The capacity latch *)

Lemma filter_all_false {A} (f : A -> bool) (l : list A) :
  (forall x, In x l -> f x = false) -> filter f l = [].
Proof.
  induction l as [|x l IH]; intros H; simpl; [reflexivity|].
  rewrite (H x (or_introl eq_refl)). apply IH. intros y Hy. apply H. right. exact Hy.
Qed.

Lemma alert_run (cfg : config) (frames : list (list point)) :
  forall s,
  let outs := snd (run cfg s frames) in
  (1 <= send_counter s -> forall o, In o outs -> notified o = false) /\
  (send_counter s = 0 ->
   (forall i, i < List.length outs ->
     (notified (nth i outs no_frame) = true <->
      threshold_count cfg < count_after (nth i outs no_frame) /\
      forall j, j < i -> count_after (nth j outs no_frame) <= threshold_count cfg)) /\
   List.length (filter notified outs) =
     (if existsb (fun o => Nat.ltb (threshold_count cfg) (count_after o)) outs
      then 1 else 0)).
Proof.
  induction frames as [|cs fs IH]; intros s; cbv zeta; simpl.
  - split; [intros _ _ []|intros _; split; [intros i Hi; simpl in Hi; lia|reflexivity]].
  - pose proof (frame_step_alert cfg s cs) as F.
    destruct (frame_step cfg s cs) as [s1 o]. destruct F as [Hc Ha].
    specialize (IH s1). cbv zeta in IH.
    destruct (run cfg s1 fs) as [s2 os]. simpl in *.
    destruct IH as [IH1 IH2]. unfold alert in Ha. rewrite <- Hc in Ha.
    split.
    + intros Hs.
      assert (Hx : send_counter s1 = send_counter s /\ notified o = false).
      { replace (Nat.ltb (send_counter s) 1) with false in Ha
          by (symmetry; apply Nat.ltb_ge; lia).
        destruct (Nat.ltb _ _); injection Ha as H1 H2; split; assumption. }
      intros o' [<-|Ho]; [apply Hx|]. apply IH1; [lia|exact Ho].
    + intros Hs. rewrite Hs in Ha. simpl in Ha.
      destruct (Nat.ltb_spec (threshold_count cfg) (count_after o)) as [Hgt|Hle].
      * injection Ha as Hs1 Hn. rewrite Hn.
        assert (Hoff : forall o', In o' os -> notified o' = false)
          by (apply IH1; lia).
        split.
        -- intros [|i] Hi; simpl; [rewrite Hn|].
           ++ split; [intros _; split; [exact Hgt|intros j Hj; lia]|reflexivity].
           ++ rewrite (Hoff (nth i os no_frame)) by (apply nth_In; simpl in Hi; lia).
              split; [intros Hf; discriminate Hf|]. intros [_ Hall].
              specialize (Hall 0 ltac:(lia)). simpl in Hall. lia.
        -- simpl. rewrite filter_all_false by exact Hoff. reflexivity.
      * injection Ha as Hs1 Hn. rewrite Hn.
        destruct (IH2 Hs1) as [IHi IHc].
        split.
        -- intros [|i] Hi; simpl; [rewrite Hn|].
           ++ split; [intros Hf; discriminate Hf|]. intros [H _]. lia.
           ++ rewrite (IHi i) by (simpl in Hi; lia). split.
              ** intros [H1 H2]. split; [exact H1|].
                 intros [|j] Hj; [exact Hle|]. apply H2. lia.
              ** intros [H1 H2]. split; [exact H1|].
                 intros j Hj. apply (H2 (S j)). lia.
        -- exact IHc.
Qed.

(* ================================================================== *)
(** * Claims *)

(** ** Track Manager *)

(** C1 (as the code does it): each detection, in input order, goes to the
    first previous-frame track, in insertion order, within distance 50,
    whether or not an earlier detection of the same frame already took it;
    an old track ends up with the centroid of the last detection that took
    it and keeps its [counted] flag, and is absent when no detection took
    it; the detections that match no track get the fresh ids [next_id],
    [next_id + 1], ... in order, with [counted = false]. *)
Theorem track_frame_first_match (tracked : tracks) (centroids : list point)
  (next_id : nat) :
  NoDup (map fst tracked) ->
  (forall id, In id (map fst tracked) -> id < next_id) ->
  let '(d, n) := track_frame tracked centroids next_id in
  n = next_id + List.length (filter (unmatched tracked) centroids) /\
  (forall id, id < next_id -> dict_get id d = old_entry tracked id centroids) /\
  (forall j, dict_get (next_id + j) d =
     option_map (fun c => (c, false))
       (nth_error (filter (unmatched tracked) centroids) j)).
Proof.
  intros Hnd Hlt. exact (track_frame_lookup tracked centroids next_id Hnd Hlt).
Qed.

(** Witness of C1: track 0 at (100,100) and detections (100,100), (110,100);
    both go to track 0, which keeps the later centroid. *)
Lemma track_frame_first_match_witness :
  let t0 := [(0, ((100, 100)%Z, false))] in
  let cs0 := [(100, 100)%Z; (110, 100)%Z] in
  NoDup (map fst t0) /\ (forall id, In id (map fst t0) -> id < 1) /\
  let '(d, n) := track_frame t0 cs0 1 in
  n = 1 + List.length (filter (unmatched t0) cs0) /\
  (forall id, id < 1 -> dict_get id d = old_entry t0 id cs0) /\
  (forall j, dict_get (1 + j) d =
     option_map (fun c => (c, false)) (nth_error (filter (unmatched t0) cs0) j)).
Proof.
  cbv zeta. split; [|split].
  - simpl. constructor; [simpl; tauto|constructor].
  - simpl. intros id [<-|[]]. lia.
  - apply track_frame_first_match.
    + simpl. constructor; [simpl; tauto|constructor].
    + simpl. intros id [<-|[]]. lia.
Defined.

(** Counterexample to C1 as stated: with track 0 at (100,100), the
    detections (100,100) and (110,100) both land on track 0 and no track 1
    is created, whereas skipping the already claimed track 0 would give the
    second detection the fresh id 1. *)
Lemma track_frame_claimed_track_reused :
  track_frame [(0, ((100, 100)%Z, false))] [(100, 100)%Z; (110, 100)%Z] 1
    = ([(0, ((110, 100)%Z, false))], 1) /\
  spec_track_frame [(0, ((100, 100)%Z, false))] [(100, 100)%Z; (110, 100)%Z] 1
    = ([(0, ((100, 100)%Z, false)); (1, ((110, 100)%Z, false))], 2) /\
  track_frame [(0, ((100, 100)%Z, false))] [(100, 100)%Z; (110, 100)%Z] 1
    <> spec_track_frame [(0, ((100, 100)%Z, false))] [(100, 100)%Z; (110, 100)%Z] 1.
Proof.
  split; [vm_compute; reflexivity|split; [vm_compute; reflexivity|]].
  vm_compute. discriminate.
Qed.

(** ** Crossing Counter *)

(** C2: over a run from the start of a session, one more frame never
    lowers [total_count] and raises it by the number of ids it counts; no
    id is ever counted twice, so [total_count] is the number of distinct
    ids counted; an id is counted only when its track is new or was live
    with [counted = false], and it is then live with [counted = true]; a
    live track with [counted = true] keeps it. *)
Theorem occupancy_counter_monotone (cfg : config) (frames : list (list point))
  (cs : list point) :
  let s := fst (run cfg init_session frames) in
  let '(s', o) := frame_step cfg s cs in
  total_count s <= total_count s' /\
  total_count s' = total_count s + List.length (incremented o) /\
  NoDup (log_of (snd (run cfg init_session (frames ++ [cs])))) /\
  total_count (fst (run cfg init_session (frames ++ [cs])))
    = List.length (log_of (snd (run cfg init_session (frames ++ [cs])))) /\
  (forall id, In id (incremented o) ->
     (forall v, dict_get id (tracked s) = Some v -> snd v = false) /\
     (dict_get id (tracked s) = None -> next_id s <= id) /\
     exists c, dict_get id (tracked s') = Some (c, true)) /\
  (forall id c v, dict_get id (tracked s) = Some (c, true) ->
     dict_get id (tracked s') = Some v -> snd v = true).
Proof.
  pose proof (run_inv cfg (frames ++ [cs])) as (_ & _ & _ & Hndl & Hlen).
  pose proof (run_inv cfg frames) as (Hnd & Hlt & _).
  cbv zeta.
  pose proof (frame_step_facts cfg _ cs Hnd Hlt) as F.
  destruct (frame_step cfg (fst (run cfg init_session frames)) cs) as [s' o].
  destruct F as (_ & _ & _ & Htot & _ & _ & _ & _ & Hinc & Hback).
  split; [lia|split; [exact Htot|split; [exact Hndl|split; [exact Hlen|]]]].
  split; [exact Hinc|].
  intros id c v Hc Hv.
  assert (Hi : id < next_id (fst (run cfg init_session frames))).
  { apply Hlt. eapply dict_get_in; eauto. }
  destruct (Hback _ _ Hv Hi) as (v0 & Hv0 & Himp).
  rewrite Hc in Hv0. injection Hv0 as <-. apply Himp. reflexivity.
Qed.

(** C3: the crossing predicate is [c.y > line_position] for ['down'] and
    [c.y < line_position] for ['up'] (never for another direction); for one
    person seen once per frame, its centroids within distance 50 from frame
    to frame, [total_count] after the first [k] frames has grown by one
    exactly when the predicate held on one of them, so the increment happens
    on the first frame where it holds and on no other frame. *)
Theorem crossing_first_frame (cfg : config) (s : session) (ps : list point) :
  tracked s = [] -> near_chain ps = true ->
  (forall L c, crosses "down" L c = (L <? snd c)%Z) /\
  (forall L c, crosses "up" L c = (snd c <? L)%Z) /\
  (forall dir L c, dir <> "down"%string -> dir <> "up"%string ->
     crosses dir L c = false) /\
  (forall k, total_count (fst (run cfg s (map (fun q => [q]) (firstn k ps)))) =
     total_count s +
     (if existsb (crosses (direction cfg) (line_position cfg)) (firstn k ps)
      then 1 else 0)) /\
  (forall k, k < List.length ps ->
     (total_count (fst (run cfg s (map (fun q => [q]) (firstn (S k) ps)))) =
      S (total_count (fst (run cfg s (map (fun q => [q]) (firstn k ps))))) <->
      crosses (direction cfg) (line_position cfg) (nth k ps (0%Z, 0%Z)) = true /\
      existsb (crosses (direction cfg) (line_position cfg)) (firstn k ps) = false)).
Proof.
  intros Ht Hc.
  assert (Hk : forall k,
    total_count (fst (run cfg s (map (fun q => [q]) (firstn k ps)))) =
    total_count s +
    (if existsb (crosses (direction cfg) (line_position cfg)) (firstn k ps)
     then 1 else 0)).
  { intros k. apply single_person_count; [exact Ht|].
    apply near_chain_firstn. exact Hc. }
  split; [|split; [|split; [|split]]].
  - intros L c. unfold crosses. simpl. destruct (L <? snd c)%Z; reflexivity.
  - intros L c. unfold crosses. simpl. destruct (snd c <? L)%Z; reflexivity.
  - intros dir L c Hd Hu. unfold crosses.
    apply String.eqb_neq in Hd, Hu. rewrite Hd, Hu. reflexivity.
  - exact Hk.
  - intros k Hlt. rewrite !Hk, (firstn_S_nth ps k (0%Z, 0%Z) Hlt), existsb_app.
    simpl. rewrite orb_false_r.
    destruct (existsb _ (firstn k ps)), (crosses _ _ (nth k ps _)); simpl;
      split; intros H; try lia; try discriminate; try (destruct H; discriminate);
      try (split; reflexivity).
Qed.

(** Witness of C3, the end-to-end scenario: line at y = 300, direction
    ['down'], one person at y = 250, 280, 310, 340. *)
Lemma crossing_first_frame_witness :
  let ps := [(400, 250); (400, 280); (400, 310); (400, 340)]%Z in
  tracked init_session = [] /\ near_chain ps = true /\
  (forall k, total_count (fst (run (mk_config 300 "down" 30) init_session
                                  (map (fun q => [q]) (firstn k ps)))) =
     0 + (if existsb (crosses "down" 300) (firstn k ps) then 1 else 0)).
Proof.
  cbv zeta. split; [reflexivity|split; [vm_compute; reflexivity|]].
  apply (crossing_first_frame (mk_config 300 "down" 30) init_session
           [(400, 250); (400, 280); (400, 310); (400, 340)]%Z);
    [reflexivity|vm_compute; reflexivity].
Defined.

(** The scenario run frame by frame: the counter moves at the 310 frame. *)
Example crossing_scenario_counts :
  map count_after
    (snd (run (mk_config 300 "down" 30) init_session
            [[(400, 250)%Z]; [(400, 280)%Z]; [(400, 310)%Z]; [(400, 340)%Z]]))
  = [0; 0; 1; 1].
Proof. vm_compute. reflexivity. Qed.

(** ** Capacity alert *)

(** C8: in a session, [send_telegram_message] is called on frame [i]
    exactly when [total_count] exceeds [threshold_count] there for the first
    time; it is called once if that ever happens and never otherwise. *)
Theorem capacity_alert_fires_once (cfg : config) (frames : list (list point)) :
  let outs := snd (run cfg init_session frames) in
  (forall i, i < List.length outs ->
     (notified (nth i outs no_frame) = true <->
      threshold_count cfg < count_after (nth i outs no_frame) /\
      forall j, j < i -> count_after (nth j outs no_frame) <= threshold_count cfg)) /\
  List.length (filter notified outs) =
    (if existsb (fun o => Nat.ltb (threshold_count cfg) (count_after o)) outs
     then 1 else 0).
Proof.
  pose proof (alert_run cfg frames init_session) as [_ H].
  exact (H eq_refl).
Qed.

(** ** Density Classifier *)

Import Density.
Local Open Scope Q_scope.

Lemma density_mono (c1 c2 area : nat) :
  (c1 <= c2)%nat -> density c1 area <= density c2 area.
Proof.
  intros Hc. unfold density. destruct (Nat.ltb 0 area); [|apply Qle_refl].
  unfold Qdiv. apply Qmult_le_compat_r.
  - unfold Qle; simpl; lia.
  - apply Qinv_le_0_compat. unfold Qle; simpl; lia.
Qed.

Lemma get_crowd_risk_mono (d1 d2 : Q) :
  d1 <= d2 -> (risk_rank (get_crowd_risk d1) <= risk_rank (get_crowd_risk d2))%nat.
Proof.
  intros Hd. unfold get_crowd_risk, t_low, t_medium, t_high.
  repeat destruct Qlt_le_dec; try (exfalso; lra); unfold risk_rank; simpl; lia.
Qed.

(** C4: both tables cut the density at 1e-4, 1.5e-4 and 2e-4: below 1e-4
    Low/Stable, then Medium/Unstable, then High/Congested, and from 2e-4 on
    Critical/Critical; hence the risk and the status are always of the same
    rank. *)
Theorem density_tiers (d : Q) :
  (d < 1 # 10000 -> get_crowd_risk d = "Low"%string /\
                    get_crowd_status d = "Stable"%string) /\
  (1 # 10000 <= d -> d < 15 # 100000 ->
     get_crowd_risk d = "Medium"%string /\ get_crowd_status d = "Unstable"%string) /\
  (15 # 100000 <= d -> d < 2 # 10000 ->
     get_crowd_risk d = "High"%string /\ get_crowd_status d = "Congested"%string) /\
  (2 # 10000 <= d ->
     get_crowd_risk d = "Critical"%string /\ get_crowd_status d = "Critical"%string) /\
  risk_rank (get_crowd_risk d) = status_rank (get_crowd_status d).
Proof.
  unfold get_crowd_risk, get_crowd_status, t_low, t_medium, t_high.
  repeat destruct Qlt_le_dec;
    repeat split; intros; try reflexivity; exfalso; lra.
Qed.

(** C5: at a fixed positive frame area, more people never give a lower risk
    tier. *)
Theorem risk_monotone_in_count (area c1 c2 : nat) :
  (0 < area)%nat -> (c1 <= c2)%nat ->
  (risk_rank (get_crowd_risk (density c1 area)) <=
   risk_rank (get_crowd_risk (density c2 area)))%nat.
Proof.
  intros _ Hc. apply get_crowd_risk_mono, density_mono, Hc.
Qed.

(** Witness of C5: 30 and 62 people on a 640x480 frame (Medium, then
    Critical). *)
Lemma risk_monotone_in_count_witness :
  (0 < 640 * 480)%nat /\ (30 <= 62)%nat /\
  (risk_rank (get_crowd_risk (density 30 (640 * 480))) <=
   risk_rank (get_crowd_risk (density 62 (640 * 480))))%nat.
Proof.
  split; [lia|split; [lia|]].
  apply risk_monotone_in_count; lia.
Defined.

(** C10: the density computation is total: it never raises
    [ZeroDivisionError], because the division is evaluated only when the
    frame area is positive (an unguarded division by a zero area would
    raise); the density is 0 on an empty frame and
    [people_count / frame_area] otherwise. *)
Theorem density_total (people_count frame_area : nat) :
  density_eval people_count frame_area = PyOk (density people_count frame_area) /\
  (frame_area = 0%nat -> density people_count frame_area = 0) /\
  (frame_area <> 0%nat ->
   ~ (inject_Z (Z.of_nat frame_area) == 0) /\
   density people_count frame_area =
   inject_Z (Z.of_nat people_count) / inject_Z (Z.of_nat frame_area)) /\
  py_truediv (inject_Z (Z.of_nat people_count)) (inject_Z (Z.of_nat 0))
    = ZeroDivisionError.
Proof.
  unfold density_eval, density, py_truediv.
  destruct frame_area as [|a].
  - split; [reflexivity|split; [intros _; reflexivity|]].
    split; [intros Hn; congruence|reflexivity].
  - assert (Hnz : ~ (inject_Z (Z.of_nat (S a)) == 0)).
    { unfold Qeq, inject_Z. simpl. lia. }
    replace (Qeq_bool (inject_Z (Z.of_nat (S a))) 0) with false.
    2: { symmetry. destruct (Qeq_bool _ _) eqn:E; [|reflexivity].
         apply Qeq_bool_iff in E. contradiction. }
    simpl Nat.ltb. cbv iota.
    split; [reflexivity|split; [discriminate|split; [|reflexivity]]].
    intros _. split; [exact Hnz|reflexivity].
Qed.

(** ** Pacing Scheduler *)

Import Pacing.

(** C6: with [processing_time < frame_interval] the loop sleeps for
    [frame_interval - processing_time]; otherwise it does not sleep, and it
    prints the overrun warning exactly when the source is a file; a live
    camera never warns. *)
Theorem pacing_sleep_or_warn (showCam : bool) (frame_interval processing_time : Q) :
  (processing_time < frame_interval ->
   pace showCam frame_interval processing_time
     = PaceSleep (frame_interval - processing_time)) /\
  (frame_interval <= processing_time ->
   pace showCam frame_interval processing_time
     = if showCam then PaceNone else PaceWarn) /\
  pace true frame_interval processing_time <> PaceWarn.
Proof.
  unfold pace.
  destruct (Qlt_le_dec 0 (frame_interval - processing_time)) as [H|H].
  - split; [reflexivity|split; [intros; exfalso; lra|discriminate]].
  - split; [intros; exfalso; lra|split; [destruct showCam; reflexivity|discriminate]].
Qed.

(** ** Byte-stream transport *)

Import Transport.

Lemma capture_loop_normal (pre rest : list iteration) :
  Forall normal_iteration pre ->
  capture_loop (pre ++ rest) =
  let '(evs, e) := capture_loop rest in
  (List.concat (map (fun _ => [ERead; EWrite; EFlush; EImshow]) pre) ++ evs, e).
Proof.
  induction 1 as [|it pre (Hr & Hw & Hf & Hq) _ IH]; simpl.
  - destruct (capture_loop rest); reflexivity.
  - unfold body. rewrite Hr, Hw, Hf, Hq. simpl. rewrite IH.
    destruct (capture_loop rest). reflexivity.
Qed.

(** C7: when writing or flushing a frame to ffmpeg raises
    [BrokenPipeError], the loop stops right there (no further read), ffmpeg
    was started once, the [finally] block runs (release the capture, and if
    ffmpeg is alive close its stdin, terminate and wait for it), and the
    function returns normally. *)
Theorem broken_pipe_ends_session (pre rest : list iteration) (it : iteration)
  (alive : bool) :
  Forall normal_iteration pre ->
  read_ok it = true ->
  write_raises it = Some BrokenPipeError \/
  (write_raises it = None /\ flush_raises it = Some BrokenPipeError) ->
  exists tail, (tail = [] \/ tail = [EFlush]) /\
  session_run (pre ++ it :: rest) alive =
    (EPopen :: List.concat (map (fun _ => [ERead; EWrite; EFlush; EImshow]) pre)
       ++ [ERead; EWrite] ++ tail
       ++ [ERelease; EDestroyWindows; EPoll]
       ++ (if alive then [ECloseStdin; ETerminate; EWait] else []),
     Returned).
Proof.
  intros Hpre Hr Hb. unfold session_run. rewrite (capture_loop_normal _ _ Hpre).
  simpl. unfold body. rewrite Hr. simpl.
  destruct Hb as [Hw|[Hw Hf]]; rewrite Hw; [|rewrite Hf].
  - exists []. split; [left; reflexivity|].
    unfold cleanup. rewrite <- !app_assoc. reflexivity.
  - exists [EFlush]. split; [right; reflexivity|].
    unfold cleanup. rewrite <- !app_assoc. reflexivity.
Qed.

(** Witness of C7: one good frame, then ffmpeg is gone when the second frame
    is written; a third frame would be available but is never read. *)
Lemma broken_pipe_ends_session_witness :
  let ok := mk_iteration true None None false in
  let bad := mk_iteration true (Some BrokenPipeError) None false in
  Forall normal_iteration [ok] /\ read_ok bad = true /\
  exists tail, (tail = [] \/ tail = [EFlush]) /\
  session_run ([ok] ++ bad :: [ok]) true =
    (EPopen :: List.concat (map (fun _ => [ERead; EWrite; EFlush; EImshow]) [ok])
       ++ [ERead; EWrite] ++ tail
       ++ [ERelease; EDestroyWindows; EPoll]
       ++ [ECloseStdin; ETerminate; EWait],
     Returned).
Proof.
  cbv zeta. split; [|split; [reflexivity|]].
  - constructor; [|constructor]. repeat split.
  - apply (broken_pipe_ends_session
             [mk_iteration true None None false] [mk_iteration true None None false]
             (mk_iteration true (Some BrokenPipeError) None false) true).
    + constructor; [|constructor]. repeat split.
    + reflexivity.
    + left; reflexivity.
Defined.

(** ** Periodic Task Gate *)

Import FaceGate.
Local Open Scope nat_scope.

(** C9: [DeepFace.find] is called only on frame indices that are multiples
    of 30, with a non-empty registry and at least one person; when the
    registry is empty, the index is not a multiple of 30 or nobody was
    detected, it is not called and [detected_persons] is empty. *)
Theorem face_match_gate (name_of : string -> string) (registry : list string)
  (frame_count people_count : nat) (find : option (list (list string))) :
  let '(invoked, persons) :=
    recognize name_of registry frame_count people_count find in
  (invoked = true ->
   registry <> [] /\ frame_count mod 30 = 0 /\
   (exists k, frame_count = 30 * k) /\ 0 < people_count) /\
  (registry = [] \/ frame_count mod 30 <> 0 \/ people_count = 0 ->
   invoked = false /\ persons = []).
Proof.
  unfold recognize, gate.
  destruct (Nat.eqb_spec (frame_count mod 30) 0) as [Hm|Hm];
    destruct (Nat.ltb_spec 0 people_count) as [Hp|Hp];
    destruct registry as [|r rs]; cbn -[Nat.modulo];
    try (split; [discriminate|intros _; split; reflexivity]).
  split.
  - intros _. split; [discriminate|split; [exact Hm|split; [|exact Hp]]].
    exists (frame_count / 30).
    pose proof (Nat.div_mod_eq frame_count 30). lia.
  - intros [H|[H|H]]; [discriminate|contradiction|lia].
Qed.

(* ================================================================== *)
(** * Further properties of the code *)

(** ** Face registry *)

Module FacesFacts.
Import Faces.
Local Open Scope nat_scope.

Lemma str_eqb_spec (a b : str) : str_eqb a b = true <-> a = b.
Proof.
  unfold str_eqb. destruct (list_eq_dec ascii_dec a b); split; congruence.
Qed.

Ltac ascii_cases c :=
  destruct c as [[] [] [] [] [] [] [] []]; reflexivity.

(** Characters of the class [[a-z0-9_]] are left alone by [lower] and by
    the space replacement, and are neither ['.'] nor ['/']. *)
Lemma safe_char_facts_b (c : ascii) :
  implb (is_safe c)
    (Ascii.eqb (lower c) c && Ascii.eqb (space_to_underscore c) c
     && negb (Ascii.eqb c "."%char) && negb (Ascii.eqb c "/"%char)) = true.
Proof. ascii_cases c. Qed.

Lemma safe_char_facts (c : ascii) :
  is_safe c = true ->
  lower c = c /\ space_to_underscore c = c /\ c <> "."%char /\ c <> "/"%char.
Proof.
  intros H. pose proof (safe_char_facts_b c) as B. rewrite H in B. simpl in B.
  apply andb_true_iff in B as [B B4]. apply andb_true_iff in B as [B B3].
  apply andb_true_iff in B as [B1 B2].
  apply Ascii.eqb_eq in B1, B2. apply negb_true_iff in B3, B4.
  repeat split; try assumption; intros ->; discriminate.
Qed.

Lemma lower_dot_slash_b (c : ascii) :
  Bool.eqb (Ascii.eqb (lower c) "."%char) (Ascii.eqb c "."%char)
  && Bool.eqb (Ascii.eqb (lower c) "/"%char) (Ascii.eqb c "/"%char) = true.
Proof. ascii_cases c. Qed.

Lemma lower_dot (c : ascii) : lower c = "."%char <-> c = "."%char.
Proof.
  pose proof (lower_dot_slash_b c) as B. apply andb_true_iff in B as [B _].
  apply Bool.eqb_prop in B. rewrite <- !Ascii.eqb_eq, B. tauto.
Qed.

Lemma lower_slash (c : ascii) : lower c = "/"%char <-> c = "/"%char.
Proof.
  pose proof (lower_dot_slash_b c) as B. apply andb_true_iff in B as [_ B].
  apply Bool.eqb_prop in B. rewrite <- !Ascii.eqb_eq, B. tauto.
Qed.

Lemma sanitize_safe (name : str) : forall c, In c (sanitize name) -> is_safe c = true.
Proof. intros c H. unfold sanitize in H. apply filter_In in H. tauto. Qed.

Lemma safe_str_fixed (s : str) :
  (forall c, In c s -> is_safe c = true) -> sanitize s = s.
Proof.
  unfold sanitize. induction s as [|c s IH]; intros H; [reflexivity|].
  simpl. destruct (safe_char_facts c (H c (or_introl eq_refl))) as (Hl & Hs & _).
  rewrite Hl, Hs, (H c (or_introl eq_refl)), IH; [reflexivity|].
  intros x Hx. apply H. right. exact Hx.
Qed.

Lemma safe_str_lower (s : str) :
  (forall c, In c s -> is_safe c = true) -> map lower s = s.
Proof.
  induction s as [|c s IH]; intros H; [reflexivity|]. simpl.
  rewrite (proj1 (safe_char_facts c (H c (or_introl eq_refl)))), IH;
    [reflexivity|].
  intros x Hx. apply H. right. exact Hx.
Qed.

Lemma rfind_from_absent (c : ascii) (p : str) :
  ~ In c p -> forall i acc, rfind_from c p i acc = acc.
Proof.
  induction p as [|x p IH]; intros Hn i acc; [reflexivity|]. simpl.
  destruct (ascii_dec x c) as [->|_]; [exfalso; apply Hn; left; reflexivity|].
  apply IH. intros H. apply Hn. right. exact H.
Qed.

Lemma rfind_from_app (c : ascii) (l1 l2 : str) :
  forall i acc, rfind_from c (l1 ++ l2) i acc =
  rfind_from c l2 (i + List.length l1) (rfind_from c l1 i acc).
Proof.
  induction l1 as [|x l1 IH]; intros i acc; simpl.
  - rewrite Nat.add_0_r. reflexivity.
  - rewrite IH. f_equal. lia.
Qed.

(** The split of a file name [stem ++ "." ++ e] whose stem and extension
    hold no ['.'] nor ['/']. *)
Lemma splitext_simple (s e : str) :
  s <> [] -> ~ In "."%char s -> ~ In "/"%char s ->
  ~ In "."%char e -> ~ In "/"%char e ->
  splitext (s ++ "."%char :: e) = (s, "."%char :: e).
Proof.
  intros Hne Hd Hs Hde Hse. unfold splitext, rfind.
  rewrite (rfind_from_absent "/"%char).
  2: { rewrite in_app_iff. intros [H|[H|H]]; [tauto|discriminate|tauto]. }
  rewrite rfind_from_app, (rfind_from_absent "."%char s Hd). simpl.
  rewrite (rfind_from_absent "."%char e Hde). simpl.
  assert (Hsl : firstn (List.length s) (s ++ "."%char :: e) = s).
  { rewrite firstn_app, Nat.sub_diag, firstn_O, app_nil_r, firstn_all.
    reflexivity. }
  rewrite Nat.sub_0_r, Hsl, skipn_app, Nat.sub_diag, skipn_all.
  destruct s as [|c s']; [congruence|].
  cbn [existsb].
  replace (Ascii.eqb c "."%char) with false.
  2: { symmetry. apply Ascii.eqb_neq. intros ->. apply Hd. left. reflexivity. }
  reflexivity.
Qed.

Lemma str_eqb_neq (a b : str) : str_eqb a b = false <-> a <> b.
Proof.
  rewrite <- str_eqb_spec. destruct (str_eqb a b); split; congruence.
Qed.

Lemma existsb_str_eqb (x : str) (l : listing) :
  existsb (str_eqb x) l = true <-> In x l.
Proof.
  rewrite existsb_exists. split.
  - intros (y & Hy & E). apply str_eqb_spec in E. subst. exact Hy.
  - intros H. exists x. split; [exact H|]. apply str_eqb_spec. reflexivity.
Qed.

Lemma drop_cache_spec (d : listing) :
  let d2 := if existsb (str_eqb cache_file) d
            then filter (fun g => negb (str_eqb g cache_file)) d else d in
  ~ In cache_file d2 /\ (forall g, In g d -> g <> cache_file -> In g d2) /\
  (forall g, In g d2 -> In g d).
Proof.
  cbv zeta. destruct (existsb (str_eqb cache_file) d) eqn:E.
  - repeat split.
    + rewrite filter_In. intros [_ H]. rewrite negb_true_iff, str_eqb_neq in H.
      congruence.
    + intros g Hg Hn. apply filter_In. split; [exact Hg|].
      apply negb_true_iff, str_eqb_neq. exact Hn.
    + intros g Hg. apply filter_In in Hg. tauto.
  - repeat split.
    + intros H. apply existsb_str_eqb in H. congruence.
    + intros g Hg _. exact Hg.
    + intros g Hg. exact Hg.
Qed.

(** An extension accepted by [add_known_face] is a dot followed by one of
    [png], [jpg], [jpeg] in any case. *)
Lemma allowed_ext_shape (ext : str) :
  existsb (str_eqb (map lower ext)) allowed_exts = true ->
  exists e', ext = "."%char :: e' /\ ~ In "."%char e' /\ ~ In "/"%char e'.
Proof.
  intros H. apply existsb_exists in H as (x & Hx & E).
  apply str_eqb_spec in E.
  destruct ext as [|c e'].
  { simpl in Hx. destruct Hx as [H|[H|[H|[]]]]; subst x; discriminate. }
  exists e'. simpl in E.
  assert (Hc : lower c = "."%char /\ ~ In "."%char (map lower e') /\
               ~ In "/"%char (map lower e')).
  { simpl in Hx.
    destruct Hx as [H|[H|[H|[]]]]; subst x; injection E as E1 E2;
      rewrite E1, E2; repeat split; simpl; intuition discriminate. }
  destruct Hc as (Hc & Hd & Hs). apply (proj1 (lower_dot c)) in Hc. subst c.
  repeat split.
  - intros Hi. apply Hd. apply in_map_iff. exists "."%char. split; [|exact Hi].
    apply lower_dot. reflexivity.
  - intros Hi. apply Hs. apply in_map_iff. exists "/"%char. split; [|exact Hi].
    apply lower_slash. reflexivity.
Qed.

Lemma cache_not_image (k : nat) :
  existsb (str_eqb (map lower (skipn k cache_file))) allowed_exts = false.
Proof.
  destruct (le_lt_dec 29 k) as [Hk|Hk].
  - rewrite skipn_all2; [reflexivity|]. unfold cache_file. simpl. lia.
  - do 29 (destruct k as [|k]; [vm_compute; reflexivity|]). lia.
Qed.

Lemma ends_with_app (a b : str) : ends_with (a ++ b) b = true.
Proof.
  unfold ends_with. rewrite length_app.
  replace (List.length a + List.length b - List.length b) with (List.length a)
    by lia.
  rewrite skipn_app, Nat.sub_diag, skipn_all. simpl.
  apply andb_true_iff. split; [apply Nat.leb_le; lia|].
  apply str_eqb_spec. reflexivity.
Qed.

Lemma in_remove_first (f g : str) (dir : listing) :
  In g dir -> g <> f -> In g (remove_first f dir).
Proof.
  induction dir as [|h dir IH]; intros Hg Hn; [destruct Hg|]. simpl.
  destruct (str_eqb h f) eqn:E.
  - apply str_eqb_spec in E. subst h. destruct Hg as [->|Hg]; [congruence|].
    exact Hg.
  - destruct Hg as [->|Hg]; [left; reflexivity|right; apply IH; assumption].
Qed.

Lemma remove_first_incl (f g : str) (dir : listing) :
  In g (remove_first f dir) -> In g dir.
Proof.
  induction dir as [|h dir IH]; simpl; [tauto|].
  destruct (str_eqb h f); simpl; tauto.
Qed.

Lemma remove_first_nodup (f : str) (dir : listing) :
  NoDup dir -> ~ In f (remove_first f dir).
Proof.
  induction dir as [|h dir IH]; intros Hd; simpl; [tauto|].
  inversion Hd as [|? ? Hh Hd']; subst.
  destruct (str_eqb h f) eqn:E.
  - apply str_eqb_spec in E. subst h. exact Hh.
  - apply str_eqb_neq in E. intros [H|H]; [congruence|]. apply (IH Hd' H).
Qed.

End FacesFacts.

Module FacesProps.
Import Faces FacesFacts.
Local Open Scope nat_scope.
Local Open Scope string_scope.
Local Open Scope list_scope.

(** [add_known_face]: sanitizing a safe name gives it back. *)
Theorem sanitize_idempotent (name : str) :
  sanitize (sanitize name) = sanitize name.
Proof. apply safe_str_fixed, sanitize_safe. Qed.

(** [add_known_face], with the failures of its [try] block: a 400 or 409
    answer leaves the directory as it was and is decided before any file
    operation, whatever those would do; a 500 comes only after every check
    passed, and may leave the new file behind. *)
Theorem add_known_face_reject (fault : add_fault) (dir : listing)
  (name filename : str) (code : nat) (dir' : listing) :
  add_known_face_io fault dir name filename = (HTTPError code, dir') ->
  ((code = 400 \/ code = 409) /\ dir' = dir /\
   forall fault', add_known_face_io fault' dir name filename = (HTTPError code, dir))
  \/
  (code = 500 /\ sanitize name <> [] /\
   existsb (str_eqb (map lower (snd (splitext filename)))) allowed_exts = true /\
   ~ In (sanitize name ++ snd (splitext filename)) dir /\
   (dir' = dir \/ dir' = dir ++ [sanitize name ++ snd (splitext filename)])).
Proof.
  intros H. unfold add_known_face_io in H |- *.
  destruct (sanitize name) as [|c0 s0] eqn:Es.
  { injection H as <- <-. left.
    split; [left; reflexivity|split; [reflexivity|intros; reflexivity]]. }
  set (ext := snd (splitext filename)) in *.
  destruct (existsb (str_eqb (map lower ext)) allowed_exts) eqn:Ex;
    cbn [negb] in H |- *.
  2: { injection H as <- <-. left.
       split; [left; reflexivity|split; [reflexivity|intros; reflexivity]]. }
  destruct (existsb (str_eqb ((c0 :: s0) ++ ext)) dir) eqn:Ed.
  { injection H as <- <-. left.
    split; [right; reflexivity|split; [reflexivity|intros; reflexivity]]. }
  right.
  assert (Hn : ~ In ((c0 :: s0) ++ ext) dir).
  { intros Hi. apply (proj2 (existsb_str_eqb _ _)) in Hi. congruence. }
  assert (Hne : c0 :: s0 <> []) by discriminate.
  destruct fault;
    [destruct (existsb (str_eqb cache_file) (dir ++ [(c0 :: s0) ++ ext]));
       discriminate H
    |injection H as <- <-; tauto
    |injection H as <- <-; tauto
    |destruct (existsb (str_eqb cache_file) (dir ++ [(c0 :: s0) ++ ext]));
       [injection H as <- <-; tauto|discriminate H]].
Qed.

Lemma add_file_not_cache (s ext : str) :
  existsb (str_eqb (map lower ext)) allowed_exts = true ->
  s ++ ext <> cache_file.
Proof.
  intros Hx Hf. assert (He : skipn (List.length s) cache_file = ext).
  { rewrite <- Hf, skipn_app, skipn_all, Nat.sub_diag. reflexivity. }
  rewrite <- He, cache_not_image in Hx. discriminate Hx.
Qed.

Lemma add_ok_facts (dir : listing) (name filename : str)
  (s f : str) (dir' : listing) :
  add_known_face dir name filename = (Ok (s, f), dir') ->
  s = sanitize name /\ s <> [] /\ f = s ++ snd (splitext filename) /\
  ~ In f dir /\ ~ In "/"%char f /\ In f dir' /\ ~ In cache_file dir' /\
  (forall g, In g dir -> g <> cache_file -> In g dir') /\
  (forall g, In g dir' -> In g dir \/ g = f) /\
  existsb (str_eqb (map lower (snd (splitext filename)))) allowed_exts = true /\
  splitext f = (s, snd (splitext filename)).
Proof.
  unfold add_known_face. intros H.
  destruct (sanitize name) as [|c0 s0] eqn:Es; [discriminate H|].
  set (ext := snd (splitext filename)) in *.
  destruct (existsb (str_eqb (map lower ext)) allowed_exts) eqn:Ex;
    cbn [negb] in H; [|discriminate H].
  destruct (existsb (str_eqb ((c0 :: s0) ++ ext)) dir) eqn:Ed;
    [discriminate H|].
  injection H as <- <- <-.
  destruct (drop_cache_spec (dir ++ [(c0 :: s0) ++ ext])) as (Hc & Hk & Hi).
  assert (Hsafe : forall c, In c (c0 :: s0) ->
                  is_safe c = true /\ c <> "."%char /\ c <> "/"%char).
  { intros c Hin. rewrite <- Es in Hin. pose proof (sanitize_safe name c Hin).
    destruct (safe_char_facts c) as (_ & _ & ? & ?); [assumption|]. tauto. }
  destruct (allowed_ext_shape ext Ex) as (e' & He & Hde & Hse).
  repeat split.
  - discriminate.
  - intros Hin. apply (proj2 (existsb_str_eqb _ _)) in Hin. simpl in Ed, Hin.
    congruence.
  - change (c0 :: s0 ++ ext) with ((c0 :: s0) ++ ext).
    rewrite in_app_iff. intros [Hin|Hin].
    + apply Hsafe in Hin. tauto.
    + rewrite He in Hin. destruct Hin as [Hin|Hin]; [discriminate Hin|tauto].
  - apply Hk; [apply in_app_iff; right; left; reflexivity|].
    apply (add_file_not_cache (c0 :: s0)). exact Ex.
  - exact Hc.
  - intros g Hg Hn. apply Hk; [apply in_app_iff; left; exact Hg|exact Hn].
  - intros g Hg. apply Hi, in_app_iff in Hg. destruct Hg as [Hg|[Hg|[]]].
    + left. exact Hg.
    + right. symmetry. exact Hg.
  - change (c0 :: s0 ++ ext) with ((c0 :: s0) ++ ext). rewrite He.
    apply splitext_simple.
    + discriminate.
    + intros Hin. apply Hsafe in Hin. tauto.
    + intros Hin. apply Hsafe in Hin. tauto.
    + exact Hde.
    + exact Hse.
Qed.

Lemma in_known_faces (dir : listing) (f : str) :
  In f dir -> existsb (ends_with (map lower f)) allowed_exts = true ->
  In (fst (splitext f)) (get_known_faces dir).
Proof.
  intros Hin He. unfold get_known_faces. apply in_map_iff. exists f.
  split; [reflexivity|]. apply filter_In. tauto.
Qed.

Lemma delete_facts (dir : listing) (face_name : str) :
  match delete_known_face dir face_name with
  | (HTTPError code, dir') =>
      code = 404 /\ dir' = dir /\
      (forall f, In f dir -> fst (splitext f) <> face_name)
  | (Ok f, dir') =>
      In f dir /\ fst (splitext f) = face_name /\ ~ In cache_file dir' /\
      (forall g, In g dir -> g <> f -> g <> cache_file -> In g dir') /\
      (forall g, In g dir' -> In g dir) /\
      (NoDup dir -> ~ In f dir')
  end.
Proof.
  unfold delete_known_face.
  destruct (find (fun f => str_eqb (fst (splitext f)) face_name) dir) as [f|]
    eqn:E.
  - apply find_some in E as [Hin Hf]. apply str_eqb_spec in Hf.
    destruct (drop_cache_spec (remove_first f dir)) as (Hc & Hk & Hi).
    repeat split.
    + exact Hin.
    + exact Hf.
    + exact Hc.
    + intros g Hg Hn Hnc. apply Hk; [apply in_remove_first|]; assumption.
    + intros g Hg. apply remove_first_incl with f. apply Hi. exact Hg.
    + intros Hnd Hf'. apply Hi in Hf'. exact (remove_first_nodup f dir Hnd Hf').
  - repeat split. intros f Hin Heq. pose proof (find_none _ _ E f Hin) as Hn.
    simpl in Hn. apply str_eqb_neq in Hn. exact (Hn Heq).
Qed.

(** [add_known_face]: on success the file written is [safe_name] followed
    by the uploaded extension, was not there before, has no ['/'] in its
    name and is listed afterwards; the cache file is gone and every other
    file is kept, nothing else is added. *)
Theorem add_known_face_success (dir : listing) (name filename : str)
  (s f : str) (dir' : listing) :
  add_known_face dir name filename = (Ok (s, f), dir') ->
  s = sanitize name /\ s <> [] /\ f = s ++ snd (splitext filename) /\
  ~ In f dir /\ ~ In "/"%char f /\ In f dir' /\ ~ In cache_file dir' /\
  (forall g, In g dir -> g <> cache_file -> In g dir') /\
  (forall g, In g dir' -> In g dir \/ g = f).
Proof.
  intros H. apply add_ok_facts in H. tauto.
Qed.

(** [add_known_face] then [get_known_faces]: the name returned by a
    successful upload is among the known faces listed afterwards. *)
Theorem add_then_list (dir : listing) (name filename : str)
  (s f : str) (dir' : listing) :
  add_known_face dir name filename = (Ok (s, f), dir') ->
  In s (get_known_faces dir').
Proof.
  intros H.
  destruct (add_ok_facts _ _ _ _ _ _ H)
    as (Hs & Hne & Hf & _ & _ & Hin & _ & _ & _ & Ex & Hsp).
  replace s with (fst (splitext f)) by (rewrite Hsp; reflexivity).
  apply in_known_faces; [exact Hin|].
  apply existsb_exists in Ex as (x & Hx & E). apply str_eqb_spec in E.
  apply existsb_exists. exists x. split; [exact Hx|].
  rewrite Hf, map_app, safe_str_lower, <- E; [apply ends_with_app|].
  rewrite Hs. apply sanitize_safe.
Qed.

(** [add_known_face] then [delete_known_face]: deleting the name returned
    by a successful upload finds a file with that stem (never a 404). *)
Theorem add_then_delete (dir : listing) (name filename : str)
  (s f : str) (dir' : listing) :
  add_known_face dir name filename = (Ok (s, f), dir') ->
  exists g dir'', delete_known_face dir' s = (Ok g, dir'') /\
                  fst (splitext g) = s.
Proof.
  intros H.
  destruct (add_ok_facts _ _ _ _ _ _ H)
    as (_ & _ & _ & _ & _ & Hin & _ & _ & _ & _ & Hsp).
  pose proof (delete_facts dir' s) as D.
  destruct (delete_known_face dir' s) as [[g|code] dir''].
  - exists g, dir''. split; [reflexivity|]. tauto.
  - destruct D as (_ & _ & D). exfalso. apply (D f Hin). rewrite Hsp.
    reflexivity.
Qed.

Lemma delete_io_ok (fault : delete_fault) (dir : listing) (face_name : str)
  (f : str) (dir' : listing) :
  delete_known_face_io fault dir face_name = (Ok f, dir') ->
  delete_known_face dir face_name = (Ok f, dir').
Proof.
  unfold delete_known_face_io, delete_known_face. intros H.
  destruct (find (fun f => str_eqb (fst (splitext f)) face_name) dir) as [g|];
    [|discriminate H].
  destruct fault;
    destruct (existsb (str_eqb cache_file) (remove_first g dir));
    try discriminate H; exact H.
Qed.

Lemma delete_io_err (fault : delete_fault) (dir : listing) (face_name : str)
  (code : nat) (dir' : listing) :
  delete_known_face_io fault dir face_name = (HTTPError code, dir') ->
  (code = 404 /\ dir' = dir /\
   forall f, In f dir -> fst (splitext f) <> face_name) \/
  (code = 500 /\ exists f, In f dir /\ fst (splitext f) = face_name /\
     (dir' = dir \/ dir' = remove_first f dir)).
Proof.
  unfold delete_known_face_io. intros H.
  destruct (find (fun f => str_eqb (fst (splitext f)) face_name) dir) as [g|]
    eqn:E.
  - apply find_some in E as [Hin Hg]. apply str_eqb_spec in Hg.
    right. destruct fault.
    + destruct (existsb (str_eqb cache_file) (remove_first g dir));
        discriminate H.
    + injection H as <- <-. split; [reflexivity|exists g; tauto].
    + destruct (existsb (str_eqb cache_file) (remove_first g dir));
        [|discriminate H].
      injection H as <- <-. split; [reflexivity|exists g; tauto].
  - injection H as <- <-. left. split; [reflexivity|split; [reflexivity|]].
    intros f Hin Heq. pose proof (find_none _ _ E f Hin) as Hn.
    simpl in Hn. apply str_eqb_neq in Hn. exact (Hn Heq).
Qed.

(** [delete_known_face], with the failures of its [try] block: 404 with the
    directory unchanged exactly when no listed file has the stem
    [face_name]; a 500 only when one has, after removing at most that file;
    on success the file removed is a listed one with that stem, the cache
    file is gone, every other file is kept and nothing is added. *)
Theorem delete_known_face_outcome (fault : delete_fault) (dir : listing)
  (face_name : str) :
  match delete_known_face_io fault dir face_name with
  | (HTTPError code, dir') =>
      (code = 404 /\ dir' = dir /\
       forall f, In f dir -> fst (splitext f) <> face_name) \/
      (code = 500 /\ exists f, In f dir /\ fst (splitext f) = face_name /\
         (dir' = dir \/ dir' = remove_first f dir))
  | (Ok f, dir') =>
      In f dir /\ fst (splitext f) = face_name /\ ~ In cache_file dir' /\
      (forall g, In g dir -> g <> f -> g <> cache_file -> In g dir') /\
      (forall g, In g dir' -> In g dir) /\
      (NoDup dir -> ~ In f dir')
  end.
Proof.
  pose proof (delete_io_ok fault dir face_name) as Hok.
  pose proof (delete_io_err fault dir face_name) as Herr.
  destruct (delete_known_face_io fault dir face_name) as [[g|code] d'].
  - pose proof (delete_facts dir face_name) as D.
    rewrite (Hok g d' eq_refl) in D. exact D.
  - exact (Herr code d' eq_refl).
Qed.

Lemma add_known_face_reject_witness :
  add_known_face_io CopyFails
    (map list_ascii_of_string ["bob.jpg"; "representations_vgg_face.pkl"])
    (list_ascii_of_string "Ann") (list_ascii_of_string "me.png")
  = (HTTPError 500,
     map list_ascii_of_string
       ["bob.jpg"; "representations_vgg_face.pkl"; "ann.png"]) /\
  (((500 = 400 \/ 500 = 409) /\
    map list_ascii_of_string
      ["bob.jpg"; "representations_vgg_face.pkl"; "ann.png"] =
    map list_ascii_of_string ["bob.jpg"; "representations_vgg_face.pkl"] /\
    forall fault', add_known_face_io fault'
      (map list_ascii_of_string ["bob.jpg"; "representations_vgg_face.pkl"])
      (list_ascii_of_string "Ann") (list_ascii_of_string "me.png") =
      (HTTPError 500,
       map list_ascii_of_string ["bob.jpg"; "representations_vgg_face.pkl"]))
   \/
   (500 = 500 /\ sanitize (list_ascii_of_string "Ann") <> [] /\
    existsb (str_eqb (map lower (snd (splitext (list_ascii_of_string "me.png")))))
      allowed_exts = true /\
    ~ In (sanitize (list_ascii_of_string "Ann") ++
          snd (splitext (list_ascii_of_string "me.png")))
       (map list_ascii_of_string ["bob.jpg"; "representations_vgg_face.pkl"]) /\
    (map list_ascii_of_string
       ["bob.jpg"; "representations_vgg_face.pkl"; "ann.png"] =
     map list_ascii_of_string ["bob.jpg"; "representations_vgg_face.pkl"] \/
     map list_ascii_of_string
       ["bob.jpg"; "representations_vgg_face.pkl"; "ann.png"] =
     map list_ascii_of_string ["bob.jpg"; "representations_vgg_face.pkl"] ++
       [sanitize (list_ascii_of_string "Ann") ++
        snd (splitext (list_ascii_of_string "me.png"))]))).
Proof.
  split; [vm_compute; reflexivity|].
  apply (add_known_face_reject CopyFails
    (map list_ascii_of_string ["bob.jpg"; "representations_vgg_face.pkl"])
    (list_ascii_of_string "Ann") (list_ascii_of_string "me.png")).
  vm_compute. reflexivity.
Defined.

Lemma add_known_face_success_witness :
  let dir := map list_ascii_of_string
               ["bob.jpg"; "representations_vgg_face.pkl"] in
  let dir' := map list_ascii_of_string ["bob.jpg"; "ann_lee.JPG"] in
  let name := list_ascii_of_string "Ann Lee" in
  let filename := list_ascii_of_string "pic.JPG" in
  let s := list_ascii_of_string "ann_lee" in
  let f := list_ascii_of_string "ann_lee.JPG" in
  add_known_face dir name filename = (Ok (s, f), dir') /\
  (s = sanitize name /\ s <> [] /\ f = s ++ snd (splitext filename) /\
   ~ In f dir /\ ~ In "/"%char f /\ In f dir' /\ ~ In cache_file dir' /\
   (forall g, In g dir -> g <> cache_file -> In g dir') /\
   (forall g, In g dir' -> In g dir \/ g = f)).
Proof.
  cbv zeta. split; [vm_compute; reflexivity|].
  apply add_known_face_success. vm_compute. reflexivity.
Defined.

Lemma add_then_list_witness :
  add_known_face
    (map list_ascii_of_string ["bob.jpg"; "representations_vgg_face.pkl"])
    (list_ascii_of_string "Ann Lee") (list_ascii_of_string "pic.JPG")
  = (Ok (list_ascii_of_string "ann_lee", list_ascii_of_string "ann_lee.JPG"),
     map list_ascii_of_string ["bob.jpg"; "ann_lee.JPG"]) /\
  In (list_ascii_of_string "ann_lee")
    (get_known_faces (map list_ascii_of_string ["bob.jpg"; "ann_lee.JPG"])).
Proof.
  split; [vm_compute; reflexivity|].
  apply (add_then_list
    (map list_ascii_of_string ["bob.jpg"; "representations_vgg_face.pkl"])
    (list_ascii_of_string "Ann Lee") (list_ascii_of_string "pic.JPG")
    (list_ascii_of_string "ann_lee") (list_ascii_of_string "ann_lee.JPG")).
  vm_compute. reflexivity.
Defined.

Lemma add_then_delete_witness :
  add_known_face
    (map list_ascii_of_string ["bob.jpg"; "representations_vgg_face.pkl"])
    (list_ascii_of_string "Bob") (list_ascii_of_string "pic.PNG")
  = (Ok (list_ascii_of_string "bob", list_ascii_of_string "bob.PNG"),
     map list_ascii_of_string ["bob.jpg"; "bob.PNG"]) /\
  exists g dir'',
    delete_known_face (map list_ascii_of_string ["bob.jpg"; "bob.PNG"])
      (list_ascii_of_string "bob") = (Ok g, dir'') /\
    fst (splitext g) = list_ascii_of_string "bob".
Proof.
  split; [vm_compute; reflexivity|].
  apply (add_then_delete
    (map list_ascii_of_string ["bob.jpg"; "representations_vgg_face.pkl"])
    (list_ascii_of_string "Bob") (list_ascii_of_string "pic.PNG")
    (list_ascii_of_string "bob") (list_ascii_of_string "bob.PNG")).
  vm_compute. reflexivity.
Defined.

End FacesProps.

(** ** Notification sink *)

Module TelegramProps.
Import Telegram.
Local Open Scope string_scope.

(** [send_telegram_message]: nothing is posted without a non-empty token;
    a user name already starting with ['@'] or ['+'] is posted as is, any
    other gets ['@'] prefixed, so every user name posted starts with ['@']
    or ['+']; a numeric id is posted as is, and normalizing twice changes
    nothing. *)
Theorem send_telegram_message_receiver (token : option string) (r : chat_id)
  (message : string) :
  (token = None \/ token = Some "" ->
   send_telegram_message token r message = None) /\
  normalize_receiver (normalize_receiver r) = normalize_receiver r /\
  (forall s, r = RStr s ->
   (String.prefix "@" s = true \/ String.prefix "+" s = true) ->
   normalize_receiver r = r) /\
  (forall s, r = RStr s ->
   String.prefix "@" s = false -> String.prefix "+" s = false ->
   normalize_receiver r = RStr ("@" ++ s)) /\
  (forall s', normalize_receiver r = RStr s' ->
   String.prefix "@" s' = true \/ String.prefix "+" s' = true) /\
  (forall z, r = RInt z -> normalize_receiver r = r).
Proof.
  split; [intros [->| ->]; reflexivity|].
  destruct r as [z|s].
  - repeat split; intros; discriminate || reflexivity.
  - unfold normalize_receiver.
    assert (Hn : String.prefix "" s = true) by (destruct s; reflexivity).
    destruct (String.prefix "@" s) eqn:Ha, (String.prefix "+" s) eqn:Hp;
      simpl; rewrite ?Ha, ?Hp, ?Hn; simpl;
      (split; [reflexivity|]);
      repeat split; intros; try discriminate;
      repeat match goal with
             | H : RStr _ = RStr _ |- _ => injection H as <-
             end;
      try reflexivity; try tauto; try congruence;
      exfalso; destruct H0; congruence.
Qed.

End TelegramProps.

(** ** Capture set-up and detection adapter *)

Module CaptureProps.
Import Tracker Capture.
Local Open Scope Q_scope.

(** [count_people_live_camera]: the frame rate used for pacing is always
    positive (so [frame_interval = 1.0 / fps] is defined), and for a video
    file it is the reported rate whenever that is positive. *)
Theorem choose_fps_positive (showCam : bool) (reported : Q) :
  0 < choose_fps showCam reported /\
  (0 < reported -> choose_fps false reported = reported).
Proof.
  unfold choose_fps. split.
  - destruct showCam; [reflexivity|].
    destruct (Qle_bool reported 0) eqn:E; [reflexivity|].
    apply Qnot_le_lt. intros H. apply Qle_bool_iff in H. congruence.
  - intros H. destruct (Qle_bool reported 0) eqn:E; [|reflexivity].
    apply Qle_bool_iff in E. exfalso. apply (Qlt_not_le _ _ H E).
Qed.

Local Open Scope Z_scope.

(** [count_people_live_camera], lines 110-118: one centroid per box of
    class 0, and each centroid lies inside its box. *)
Theorem centroids_of_inside (boxes : list (box * Z)) :
  List.length (centroids_of boxes) =
    List.length (filter (fun bc => Z.eqb (snd bc) 0) boxes) /\
  (forall p, In p (centroids_of boxes) ->
   exists x1 y1 x2 y2, In ((x1, y1, x2, y2), 0) boxes /\
     (x1 <= x2 -> y1 <= y2 ->
      x1 <= fst p <= x2 /\ y1 <= snd p <= y2)).
Proof.
  induction boxes as [|[[[[x1 y1] x2] y2] cls] rest [IHl IHp]].
  - split; [reflexivity|intros ? []].
  - simpl. destruct (Z.eqb_spec cls 0) as [->|Hc]; simpl.
    + split; [rewrite IHl; reflexivity|].
      intros p [<-|Hp].
      * exists x1, y1, x2, y2. split; [left; reflexivity|].
        intros Hx Hy. simpl.
        pose proof (Z.div_mod (x1 + x2) 2 ltac:(lia)).
        pose proof (Z.mod_pos_bound (x1 + x2) 2 ltac:(lia)).
        pose proof (Z.div_mod (y1 + y2) 2 ltac:(lia)).
        pose proof (Z.mod_pos_bound (y1 + y2) 2 ltac:(lia)).
        lia.
      * destruct (IHp p Hp) as (a & b & c & d & Hin & H).
        exists a, b, c, d. split; [right; exact Hin|exact H].
    + split; [exact IHl|].
      intros p Hp. destruct (IHp p Hp) as (a & b & c & d & Hin & H).
      exists a, b, c, d. split; [right; exact Hin|exact H].
Qed.

End CaptureProps.

(** ** Track manager *)

Module TrackerProps.
Import Tracker.
Local Open Scope nat_scope.

Lemma dict_set_length (k : nat) (v : track) (d : tracks) :
  List.length (dict_set k v d) <= S (List.length d).
Proof.
  induction d as [|[k' v'] d IH]; simpl; [lia|].
  destruct (Nat.eqb k k'); simpl; lia.
Qed.

Lemma dict_set_nonempty (k : nat) (v : track) (d : tracks) : dict_set k v d <> [].
Proof. destruct d as [|[k' v'] d]; simpl; [|destruct (Nat.eqb k k')]; discriminate. Qed.

Lemma fold_assign_size (tracked : tracks) (cs : list point) :
  forall d m,
  let '(d', m') := fold_left (assign_step tracked) cs (d, m) in
  List.length d' <= List.length d + List.length cs /\
  m <= m' <= m + List.length cs /\
  (d' = [] <-> d = [] /\ cs = []).
Proof.
  induction cs as [|c cs IH]; intros d m; simpl.
  - split; [lia|split; [lia|tauto]].
  - unfold assign_step.
    destruct (first_match tracked c) as [[id b]|].
    + specialize (IH (dict_set id (c, b) d) m).
      destruct (fold_left _ cs _) as [d' m'].
      pose proof (dict_set_length id (c, b) d).
      pose proof (dict_set_nonempty id (c, b) d).
      destruct IH as (H1 & H2 & H3). split; [lia|split; [lia|]].
      split; [intros E; apply H3 in E; tauto|intros [_ E]; discriminate E].
    + specialize (IH (dict_set m (c, false) d) (S m)).
      destruct (fold_left _ cs _) as [d' m'].
      pose proof (dict_set_length m (c, false) d).
      pose proof (dict_set_nonempty m (c, false) d).
      destruct IH as (H1 & H2 & H3). split; [lia|split; [lia|]].
      split; [intros E; apply H3 in E; tauto|intros [_ E]; discriminate E].
Qed.

(** [count_people_live_camera], lines 122-143: a frame never holds more
    tracks than it has centroids, takes at most one new id per centroid,
    and drops every track exactly when it has no centroid. *)
Theorem track_frame_size (tracked : tracks) (centroids : list point)
  (next_id : nat) :
  let '(d, n) := track_frame tracked centroids next_id in
  List.length d <= List.length centroids /\
  next_id <= n <= next_id + List.length centroids /\
  (d = [] <-> centroids = []).
Proof.
  unfold track_frame. pose proof (fold_assign_size tracked centroids [] next_id).
  destruct (fold_left _ _ _) as [d n]. simpl in H. intuition.
Qed.

End TrackerProps.

(** ** Sessions *)

Module SessionProps.
Import Tracker Session TrackerProps.
Local Open Scope nat_scope.

(** [count_people_live_camera]: [total_count] never exceeds the number of
    ids handed out so far; every person counted has an id of their own. *)
Theorem total_count_le_next_id (cfg : config) (frames : list (list point)) :
  total_count (fst (run cfg init_session frames)) <=
  next_id (fst (run cfg init_session frames)).
Proof.
  pose proof (run_inv cfg frames) as (_ & _ & Hlog & Hnd & Htot).
  set (s := fst (run cfg init_session frames)) in *.
  set (log := log_of (snd (run cfg init_session frames))) in *.
  rewrite Htot. rewrite <- (length_seq (next_id s) 0).
  apply NoDup_incl_length; [exact Hnd|].
  intros id Hid. apply in_seq. destruct (Hlog id Hid). lia.
Qed.

(** [count_people_live_camera]: in one frame [total_count] grows by at most
    the number of persons detected in it, and at most that many tracks
    are kept. *)
Theorem frame_count_le_detections (cfg : config) (frames : list (list point))
  (cs : list point) :
  let s := fst (run cfg init_session frames) in
  let '(s', o) := frame_step cfg s cs in
  List.length (tracked s') <= List.length cs /\
  total_count s' <= total_count s + List.length cs.
Proof.
  pose proof (run_inv cfg frames) as (Hnd & Hlt & _).
  set (s := fst (run cfg init_session frames)) in *. cbv zeta.
  unfold frame_step.
  pose proof (track_frame_entries (tracked s) cs (next_id s) Hnd Hlt) as Ht.
  pose proof (track_frame_size (tracked s) cs (next_id s)) as Hz.
  destruct (track_frame (tracked s) cs (next_id s)) as [d n].
  destruct Ht as (Hndd & _). destruct Hz as (Hlen & _).
  pose proof (count_pass_spec (direction cfg) (line_position cfg) d
                (total_count s)) as Hc.
  destruct (count_pass _ _ d _) as [[d' t'] log].
  destruct Hc as (Hk & Ht & _ & Hl). destruct (Hl Hndd) as (Hndl & Hin).
  destruct (alert _ _ _) as [send' notif]. simpl.
  assert (Hd' : List.length d' = List.length d).
  { rewrite <- (length_map fst d'), <- (length_map fst d), Hk. reflexivity. }
  split; [lia|].
  assert (List.length log <= List.length (map fst d)).
  { apply NoDup_incl_length; [exact Hndl|].
    intros id Hid. destruct (Hin id Hid) as (c & Hg & _).
    exact (dict_get_in _ _ _ Hg). }
  rewrite length_map in H. lia.
Qed.

Lemma count_pass_no_cross (dir : string) (line : Z) (d : tracks) (t : nat) :
  (forall c, crosses dir line c = false) ->
  count_pass dir line d t = (d, t, []).
Proof.
  intros Hx. induction d as [|[id [c b]] rest IH]; [reflexivity|].
  simpl. rewrite Hx, andb_false_r, IH. reflexivity.
Qed.

Lemma run_no_cross (cfg : config) (frames : list (list point)) :
  (forall c, crosses (direction cfg) (line_position cfg) c = false) ->
  forall s, total_count s = 0 ->
  total_count (fst (run cfg s frames)) = 0 /\
  forall o, In o (snd (run cfg s frames)) ->
    incremented o = [] /\ count_after o = 0 /\ notified o = false.
Proof.
  intros Hx. induction frames as [|cs fs IH]; intros s Hs.
  - split; [exact Hs|intros ? []].
  - simpl. destruct (frame_step cfg s cs) as [s1 o1] eqn:E.
    assert (Hs1 : total_count s1 = 0 /\ incremented o1 = [] /\
                  count_after o1 = 0 /\ notified o1 = false).
    { unfold frame_step in E.
      destruct (track_frame (tracked s) cs (next_id s)) as [d n].
      rewrite count_pass_no_cross in E by exact Hx. rewrite Hs in E.
      unfold alert in E. simpl in E. injection E as <- <-. simpl. tauto. }
    destruct Hs1 as (Ht & Hi & Hc & Hn).
    destruct (IH s1 Ht) as [H1 H2].
    destruct (run cfg s1 fs) as [s2 os].
    split; [exact H1|]. intros o [<-|Ho]; [tauto|exact (H2 o Ho)].
Qed.

(** [count_people_live_camera]: with a [direction] other than ['down'] and
    ['up'] nobody is ever counted: no frame increments [total_count], which
    stays 0. *)
Theorem invalid_direction_never_counts (cfg : config)
  (frames : list (list point)) :
  direction cfg <> "down"%string -> direction cfg <> "up"%string ->
  total_count (fst (run cfg init_session frames)) = 0 /\
  forall o, In o (snd (run cfg init_session frames)) ->
    incremented o = [] /\ count_after o = 0.
Proof.
  intros Hd Hu.
  assert (Hx : forall c, crosses (direction cfg) (line_position cfg) c = false).
  { intros c. unfold crosses.
    apply String.eqb_neq in Hd, Hu. rewrite Hd, Hu. reflexivity. }
  destruct (run_no_cross cfg frames Hx init_session eq_refl) as [H1 H2].
  split; [exact H1|]. intros o Ho. destruct (H2 o Ho) as (Hi & Hc & _).
  split; assumption.
Qed.

Lemma invalid_direction_never_counts_witness :
  let cfg := mk_config 240 "left" 0 in
  let frames := [[(10, 100)%Z]; [(12, 300)%Z]; [(12, 300)%Z; (400, 50)%Z]] in
  direction cfg <> "down"%string /\ direction cfg <> "up"%string /\
  (total_count (fst (run cfg init_session frames)) = 0 /\
   forall o, In o (snd (run cfg init_session frames)) ->
     incremented o = [] /\ count_after o = 0).
Proof.
  cbv zeta. split; [discriminate|split; [discriminate|]].
  apply invalid_direction_never_counts; discriminate.
Defined.

End SessionProps.

(** ** WebSocket frame loop *)

Module WebsocketProps.
Import FaceGate Websocket.
Local Open Scope nat_scope.

Lemma multiples_of_30 (n : nat) :
  List.length (filter (fun i => Nat.eqb (i mod 30) 0) (seq 0 n)) = (n + 29) / 30.
Proof.
  induction n as [|n IH]; [reflexivity|].
  rewrite seq_S, filter_app, length_app, IH. cbn -[Nat.div Nat.modulo].
  replace (S (n + 29)) with (n + 30) by lia.
  pose proof (Nat.div_mod (n + 29) 30 ltac:(lia)).
  pose proof (Nat.mod_upper_bound (n + 29) 30 ltac:(lia)).
  pose proof (Nat.div_mod (n + 30) 30 ltac:(lia)).
  pose proof (Nat.mod_upper_bound (n + 30) 30 ltac:(lia)).
  pose proof (Nat.div_mod n 30 ltac:(lia)).
  pose proof (Nat.mod_upper_bound n 30 ltac:(lia)).
  destruct (Nat.eqb_spec (n mod 30) 0); cbn -[Nat.div Nat.modulo]; lia.
Qed.

Lemma face_calls_count (registry : list string) (ps : list nat) :
  forall k,
  List.length (filter (fun b => b) (face_calls registry k ps)) <=
  List.length (filter (fun i => Nat.eqb (i mod 30) 0) (seq k (List.length ps))).
Proof.
  induction ps as [|p ps IH]; intros k; [reflexivity|].
  specialize (IH (S k)).
  cbn -[Nat.modulo gate].
  destruct (gate registry k p) eqn:G.
  - assert (Hm : Nat.eqb (k mod 30) 0 = true).
    { unfold gate in G. apply andb_true_iff in G as [G _].
      apply andb_true_iff in G. tauto. }
    rewrite Hm. cbn -[Nat.modulo]. lia.
  - destruct (Nat.eqb (k mod 30) 0); cbn -[Nat.modulo]; lia.
Qed.

Lemma face_calls_nth (registry : list string) (ps : list nat) :
  forall k i, nth i (face_calls registry k ps) false = true ->
  (k + i) mod 30 = 0 /\ registry <> [] /\ 0 < nth i ps 0.
Proof.
  induction ps as [|p ps IH]; intros k i H; [destruct i; discriminate H|].
  destruct i as [|i]; cbn -[Nat.modulo gate] in H.
  - unfold gate in H. apply andb_true_iff in H as [H Hp].
    apply andb_true_iff in H as [Hr Hm].
    rewrite Nat.add_0_r. apply Nat.eqb_eq in Hm. apply Nat.ltb_lt in Hp.
    split; [exact Hm|split; [|exact Hp]].
    destruct registry; [discriminate Hr|discriminate].
  - destruct (IH (S k) i H) as (Hm & Hr & Hp).
    rewrite Nat.add_succ_r. split; [exact Hm|split; [exact Hr|exact Hp]].
Qed.

(** [websocket_endpoint] with [process_frame_realtime]: over [n] frames
    [DeepFace.find] runs at most [ceil(n / 30)] times, only on frames
    whose index is a multiple of 30 and that show somebody, and never with
    an empty face directory. *)
Theorem deepface_calls_bounded (registry : list string) (people_counts : list nat) :
  let calls := websocket_face_calls registry people_counts in
  List.length (filter (fun b => b) calls) <= (List.length people_counts + 29) / 30 /\
  (forall i, nth i calls false = true ->
     i mod 30 = 0 /\ registry <> [] /\ 0 < nth i people_counts 0).
Proof.
  cbv zeta. unfold websocket_face_calls. split.
  - rewrite <- multiples_of_30. apply face_calls_count.
  - intros i H. apply (face_calls_nth registry people_counts 0 i H).
Qed.

End WebsocketProps.

(** ** Crowd metrics of one frame *)

Module RealtimeProps.
Import Density Realtime.
Local Open Scope nat_scope.

Lemma density_frame (p : nat) :
  density p frame_area = (Z.of_nat p # 307200)%Q.
Proof.
  unfold density, frame_area.
  replace (Nat.ltb 0 (480 * 640)) with true
    by (symmetry; apply Nat.ltb_lt; apply Nat.mul_pos_pos; lia).
  rewrite Nat2Z.inj_mul. unfold Qdiv, Qmult, Qinv, inject_Z. simpl.
  rewrite Z.mul_1_r. reflexivity.
Qed.

(** [process_frame_realtime]: on the resized 640x480 frame the risk is Low
    for up to 30 persons, Medium for 31 to 46, High for 47 to 61 and
    Critical from 62 on; the status follows the same cuts. *)
Theorem metrics_people_thresholds (people_count : nat) :
  let '(_, risk, status) := metrics people_count in
  risk = (if Nat.leb people_count 30 then "Low"
          else if Nat.leb people_count 46 then "Medium"
          else if Nat.leb people_count 61 then "High" else "Critical")%string /\
  status = (if Nat.leb people_count 30 then "Stable"
            else if Nat.leb people_count 46 then "Unstable"
            else if Nat.leb people_count 61 then "Congested" else "Critical")%string.
Proof.
  unfold metrics. rewrite density_frame.
  unfold get_crowd_risk, get_crowd_status, t_low, t_medium, t_high.
  destruct (Nat.leb_spec people_count 30);
    [|destruct (Nat.leb_spec people_count 46);
      [|destruct (Nat.leb_spec people_count 61)]];
    repeat destruct Qlt_le_dec;
    try (split; reflexivity); exfalso;
    unfold Qlt, Qle in *; simpl in *; lia.
Qed.

End RealtimeProps.
